(** * Inventario-Proyecto: loan lifecycle and stock accounting

    A shallow embedding of [src/services/loanService.js] and of the sending
    policy of [src/services/mailService.js], with the properties of the
    loan state machine, of the stock counter of an item and of the
    notification sink.

    Conventions of the embedding.
    - A MongoDB collection is a finite map from [_id] to document; the [_id]
      of a document is the key under which it is stored, so a document
      obtained by [findById k] is saved back under [k].
    - A Mongoose document in memory is a value: [findById] hands out a copy,
      the assignments of the service act on that copy and [save] overwrites
      the stored document.
    - Numbers are integers ([Z]); a [Date] is its epoch time in milliseconds;
      an argument that may be absent ([undefined], [null]) is an [option].
    - An [async] function of the loan service is a function from the
      database to a completion (normal or thrown) and the database it
      leaves behind: a [throw] does not undo the writes made before it.
    - The notifications that the loan service schedules with [setImmediate]
      run after the operation has returned and never touch the loan or the
      item; they are not part of the operations below. *)

From Stdlib Require Import ZArith Lia.
From stdpp Require Import gmap strings list sorting.

Local Open Scope Z_scope.

(** ** Data model *)

Abbreviation Id := N (only parsing).
Abbreviation Fecha := Z (only parsing).

Inductive Estado := Pendiente | Aprobado | Rechazado | Aplazado | Devuelto.

#[global] Instance Estado_eq_dec : EqDecision Estado.
Proof. solve_decision. Defined.

Module Item.
Record t := mk {
  nombre : string;
  cantidad_disponible : Z;
  cantidad_total_stock : Z
}.

Definition set_cantidad_disponible (n : Z) (i : t) : t :=
  mk (nombre i) n (cantidad_total_stock i).
End Item.

Module Loan.
Record t := mk {
  usuario : Id;
  item : Id;
  aula : Id;
  cantidad_prestamo : Z;
  estado : Estado;
  fecha_prestamo : option Fecha;
  fecha_estimada : option Fecha;
  fecha_retorno : option Fecha;
  createdAt : Fecha
}.

Definition set_estado (e : Estado) (l : t) : t :=
  mk (usuario l) (item l) (aula l) (cantidad_prestamo l) e
     (fecha_prestamo l) (fecha_estimada l) (fecha_retorno l) (createdAt l).
Definition set_fecha_prestamo (f : option Fecha) (l : t) : t :=
  mk (usuario l) (item l) (aula l) (cantidad_prestamo l) (estado l)
     f (fecha_estimada l) (fecha_retorno l) (createdAt l).
Definition set_fecha_estimada (f : option Fecha) (l : t) : t :=
  mk (usuario l) (item l) (aula l) (cantidad_prestamo l) (estado l)
     (fecha_prestamo l) f (fecha_retorno l) (createdAt l).
Definition set_fecha_retorno (f : option Fecha) (l : t) : t :=
  mk (usuario l) (item l) (aula l) (cantidad_prestamo l) (estado l)
     (fecha_prestamo l) (fecha_estimada l) f (createdAt l).
End Loan.

Module User.
Record t := mk {
  nombre : string;
  email : option string;
  rol : string
}.
End User.

(** The three collections the services read and write. *)
Record DB := mkDB {
  loans : gmap N Loan.t;
  items : gmap N Item.t;
  users : gmap N User.t
}.

(** ** Errors

    The service throws [Object.assign(new Error(message), { status })]; a
    dereference of [null] throws a [TypeError], which carries no status. *)
Inductive Error :=
| HttpError (message : string) (status : Z)
| TypeError.

#[global] Instance Error_eq_dec : EqDecision Error.
Proof. solve_decision. Defined.

Definition err_prestamo_no_encontrado := HttpError "Préstamo no encontrado" 404.
Definition err_no_pendiente := HttpError "El préstamo no está pendiente" 400.
Definition err_fecha_obligatoria := HttpError "La fecha estimada es obligatoria" 400.
Definition err_item_no_encontrado := HttpError "Ítem no encontrado" 404.
Definition err_stock_insuficiente := HttpError "Stock insuficiente" 400.
Definition err_no_devolver := HttpError "El préstamo no se puede devolver" 400.
Definition err_no_aplazar := HttpError "El préstamo no puede ser aplazado" 400.
Definition err_nueva_fecha_obligatoria := HttpError "La nueva fecha es obligatoria" 400.
Definition err_no_autorizado := HttpError "No autorizado" 403.

(** The error taxonomy of the specification, and the place of each thrown
    error in it: 404 is [NotFound], 403 is [Forbidden], and the three kinds
    that share status 400 are told apart by what the message reports. *)
Inductive ErrorKind :=
  NotFound | InvalidState | ValidationError | InsufficientStock | Forbidden.

Definition kind (e : Error) : option ErrorKind :=
  if decide (e = err_prestamo_no_encontrado) then Some NotFound
  else if decide (e = err_item_no_encontrado) then Some NotFound
  else if decide (e = err_no_pendiente) then Some InvalidState
  else if decide (e = err_no_devolver) then Some InvalidState
  else if decide (e = err_no_aplazar) then Some InvalidState
  else if decide (e = err_fecha_obligatoria) then Some ValidationError
  else if decide (e = err_nueva_fecha_obligatoria) then Some ValidationError
  else if decide (e = err_stock_insuficiente) then Some InsufficientStock
  else if decide (e = err_no_autorizado) then Some Forbidden
  else None.

(** ** The monad of the loan service: state and exceptions *)

Inductive Completion (A : Type) :=
| Normal (a : A)
| Throw (e : Error).
Arguments Normal {A} a.
Arguments Throw {A} e.

Definition M (A : Type) : Type := DB → Completion A * DB.

Definition ret {A} (a : A) : M A := λ db, (Normal a, db).
Definition throw {A} (e : Error) : M A := λ db, (Throw e, db).
Definition bind {A B} (m : M A) (k : A → M B) : M B :=
  λ db, match m db with
        | (Normal a, db') => k a db'
        | (Throw e, db') => (Throw e, db')
        end.

#[global] Instance M_ret : MRet M := @ret.
#[global] Instance M_bind : MBind M := λ A B k m, bind m k.

Definition fails_with {A} (k : ErrorKind) (c : Completion A) : Prop :=
  ∃ e, c = Throw e ∧ kind e = Some k.

(** Datastore primitives. *)
Definition Loan_findById (id : Id) : M (option Loan.t) :=
  λ db, (Normal (loans db !! id), db).
Definition Item_findById (id : Id) : M (option Item.t) :=
  λ db, (Normal (items db !! id), db).
Definition Loan_save (id : Id) (l : Loan.t) : M unit :=
  λ db, (Normal tt, mkDB (<[id := l]> (loans db)) (items db) (users db)).
Definition Item_save (id : Id) (i : Item.t) : M unit :=
  λ db, (Normal tt, mkDB (loans db) (<[id := i]> (items db)) (users db)).
Definition Loan_findByIdAndDelete (id : Id) : M (option Loan.t) :=
  λ db, (Normal (loans db !! id),
         mkDB (delete id (loans db)) (items db) (users db)).

(** ** loanService.js *)

(** Lines 69-84 of [approveLoan]: the optimistic write of the loan, the
    decrement on the in-memory item and the compensation. *)
Definition approve_commit (now : Fecha) (loanId : Id) (loan : Loan.t)
    (item : Item.t) (fechaEstimada : Fecha) : M Loan.t :=
  let loan := Loan.set_estado Aprobado loan in
  let loan := Loan.set_fecha_prestamo (Some now) loan in
  let loan := Loan.set_fecha_estimada (Some fechaEstimada) loan in
  Loan_save loanId loan ;;
  let item := Item.set_cantidad_disponible
    (Item.cantidad_disponible item - Loan.cantidad_prestamo loan) item in
  if Item.cantidad_disponible item <? 0 then
    let loan := Loan.set_estado Pendiente loan in
    let loan := Loan.set_fecha_prestamo None loan in
    let loan := Loan.set_fecha_estimada None loan in
    Loan_save loanId loan ;;
    throw err_stock_insuficiente
  else
    Item_save (Loan.item loan) item ;;
    ret loan.

Definition approveLoan (now : Fecha) (loanId : Id)
    (fechaEstimada : option Fecha) : M Loan.t :=
  found ← Loan_findById loanId;
  match found with
  | None => throw err_prestamo_no_encontrado
  | Some loan =>
    if negb (bool_decide (Loan.estado loan = Pendiente))
    then throw err_no_pendiente
    else match fechaEstimada with
    | None => throw err_fecha_obligatoria
    | Some fecha =>
      found_item ← Item_findById (Loan.item loan);
      match found_item with
      | None => throw err_item_no_encontrado
      | Some item =>
        if Loan.cantidad_prestamo loan >? Item.cantidad_disponible item
        then throw err_stock_insuficiente
        else approve_commit now loanId loan item fecha
      end
    end
  end.

Definition rejectLoan (loanId : Id) : M Loan.t :=
  found ← Loan_findById loanId;
  match found with
  | None => throw err_prestamo_no_encontrado
  | Some loan =>
    if negb (bool_decide (Loan.estado loan = Pendiente))
    then throw err_no_pendiente
    else
      let loan := Loan.set_estado Rechazado loan in
      Loan_save loanId loan ;;
      ret loan
  end.

(** [['Aprobado', 'Aplazado'].includes(loan.estado)] *)
Definition en_prestamo (e : Estado) : bool :=
  bool_decide (e = Aprobado) || bool_decide (e = Aplazado).

Definition returnLoan (now : Fecha) (loanId : Id) : M Loan.t :=
  found ← Loan_findById loanId;
  match found with
  | None => throw err_prestamo_no_encontrado
  | Some loan =>
    if negb (en_prestamo (Loan.estado loan))
    then throw err_no_devolver
    else
      found_item ← Item_findById (Loan.item loan);
      match found_item with
      | None => throw err_item_no_encontrado
      | Some item =>
        let loan := Loan.set_estado Devuelto loan in
        let loan := Loan.set_fecha_retorno (Some now) loan in
        Loan_save loanId loan ;;
        let item := Item.set_cantidad_disponible
          (Item.cantidad_disponible item + Loan.cantidad_prestamo loan) item in
        let item :=
          if Item.cantidad_disponible item >? Item.cantidad_total_stock item
          then Item.set_cantidad_disponible (Item.cantidad_total_stock item) item
          else item in
        Item_save (Loan.item loan) item ;;
        ret loan
      end
  end.

Definition delayLoan (loanId : Id) (nuevaFecha : option Fecha) : M Loan.t :=
  found ← Loan_findById loanId;
  match found with
  | None => throw err_prestamo_no_encontrado
  | Some loan =>
    if negb (en_prestamo (Loan.estado loan))
    then throw err_no_aplazar
    else match nuevaFecha with
    | None => throw err_nueva_fecha_obligatoria
    | Some fecha =>
      let loan := Loan.set_estado Aplazado loan in
      let loan := Loan.set_fecha_estimada (Some fecha) loan in
      Loan_save loanId loan ;;
      ret loan
    end
  end.

Definition deleteLoan (loanId : Id) : M Loan.t :=
  found ← Loan_findByIdAndDelete loanId;
  match found with
  | None => throw err_prestamo_no_encontrado
  | Some loan => ret loan
  end.

(** The caller of a read operation: [{ rol, _id }] of the authenticated user. *)
Module Caller.
Record t := mk { rol : string; _id : Id }.
End Caller.

(** A query document of [Loan.find]: each field present restricts the
    matching loans to those with that value. *)
Module Query.
Record t := mk { usuario : option Id; estado : option Estado }.

Definition matches (q : t) (l : Loan.t) : bool :=
  match usuario q with
  | Some u => bool_decide (Loan.usuario l = u)
  | None => true
  end &&
  match estado q with
  | Some e => bool_decide (Loan.estado l = e)
  | None => true
  end.
End Query.

(** [{ createdAt: -1 }]: a loan comes before the loans created no later. *)
Definition createdAt_desc (x y : Id * Loan.t) : Prop :=
  Loan.createdAt (snd y) ≤ Loan.createdAt (snd x).

#[global] Instance createdAt_desc_dec x y : Decision (createdAt_desc x y).
Proof. unfold createdAt_desc. apply _. Defined.

(** [Loan.find(query).sort({ createdAt: -1 })]. The order MongoDB gives to
    loans with equal [createdAt] is unspecified; the model takes the one of a
    stable sort of the collection. *)
Definition Loan_find_sorted (q : Query.t) : M (list (Id * Loan.t)) :=
  λ db, (Normal (merge_sort createdAt_desc
                   (filter (λ p, Query.matches q (snd p) = true)
                           (map_to_list (loans db)))), db).

(** [populate('usuario')]: the user the loan refers to, [null] when the
    reference dangles. *)
Definition populate_usuario (l : Loan.t) : M (option User.t) :=
  λ db, (Normal (users db !! Loan.usuario l), db).

Definition listLoans (caller : Caller.t) (filtros_estado : option Estado)
    : M (list (Id * Loan.t)) :=
  let query := Query.mk None None in
  let query :=
    if negb (bool_decide (Caller.rol caller = "Admin"))
    then Query.mk (Some (Caller._id caller)) (Query.estado query)
    else query in
  let query :=
    match filtros_estado with
    | Some e => Query.mk (Query.usuario query) (Some e)
    | None => query
    end in
  Loan_find_sorted query.

Definition getLoanById (caller : Caller.t) (loanId : Id) : M Loan.t :=
  found ← Loan_findById loanId;
  match found with
  | None => throw err_prestamo_no_encontrado
  | Some loan =>
    if negb (bool_decide (Caller.rol caller = "Admin"))
    then
      usuario ← populate_usuario loan;
      match usuario with
      | None => throw TypeError
      | Some _ =>
        if negb (bool_decide (Loan.usuario loan = Caller._id caller))
        then throw err_no_autorizado
        else ret loan
      end
    else ret loan
  end.

(** ** Sequences of approvals and returns *)

Inductive Op :=
| Approve (now : Fecha) (loanId : Id) (fechaEstimada : option Fecha)
| Return (now : Fecha) (loanId : Id).

Definition exec (op : Op) (db : DB) : DB :=
  match op with
  | Approve now loanId fechaEstimada =>
      snd (approveLoan now loanId fechaEstimada db)
  | Return now loanId => snd (returnLoan now loanId db)
  end.

Definition run (ops : list Op) (db : DB) : DB :=
  foldl (λ db op, exec op db) db ops.

(** The invariant of the stock counter of an item. *)
Definition stock_ok (i : Item.t) : Prop :=
  0 ≤ Item.cantidad_disponible i ≤ Item.cantidad_total_stock i.

(** Modelled from the spec: [models/Loan.js] is not among the sources; the
    data model gives [cantidad_prestamo] as an integer greater than 0 that
    is fixed at creation. *)
Definition cantidades_validas (db : DB) : Prop :=
  ∀ id l, loans db !! id = Some l → 0 < Loan.cantidad_prestamo l.

(** What [returnLoan] stores in the counter: the sum, capped at the total. *)
Definition restored (i : Item.t) (l : Loan.t) : Z :=
  Z.min (Item.cantidad_disponible i + Loan.cantidad_prestamo l)
        (Item.cantidad_total_stock i).

(** The loan as [approveLoan] writes it. *)
Definition approved (now fecha : Fecha) (l : Loan.t) : Loan.t :=
  Loan.set_fecha_estimada (Some fecha)
    (Loan.set_fecha_prestamo (Some now) (Loan.set_estado Aprobado l)).

(** The loan as [returnLoan] writes it. *)
Definition returned (now : Fecha) (l : Loan.t) : Loan.t :=
  Loan.set_fecha_retorno (Some now) (Loan.set_estado Devuelto l).


(** ** mailService.js

    [sendEmail] talks to the Resend service and waits between retries. Its
    model returns how the promise settles together with the trace of what
    it did: the requests it sent and the waits. Log lines are left out. *)

(** [s.startsWith(search)] and [s.includes(search)] *)
Fixpoint startsWith (search s : string) : bool :=
  match search, s with
  | EmptyString, _ => true
  | String a search', String b s' => bool_decide (a = b) && startsWith search' s'
  | String _ _, EmptyString => false
  end.

Fixpoint includes (search s : string) : bool :=
  startsWith search s ||
  match s with
  | EmptyString => false
  | String _ s' => includes search s'
  end.

(** Truthiness of a string that may be [undefined]: [undefined] and the
    empty string are falsy. *)
Definition truthy (s : option string) : bool :=
  match s with
  | None | Some EmptyString => false
  | Some _ => true
  end.

(** [String(s)] and [`${s}`] *)
Definition String_of (s : option string) : string :=
  match s with
  | None => "undefined"
  | Some s => s
  end.

(** A thrown or caught exception object. *)
Module JsError.
Record t := mk {
  name : string;
  message : string;
  statusCode : option Z;
  code : option string
}.

(** [new Error(message)] *)
Definition Error (message : string) : t := mk "Error" message None None.

(** [String(error)] *)
Definition to_string (e : t) : string :=
  if bool_decide (message e = "") then name e
  else name e +:+ ": " +:+ message e.
End JsError.

(** How a promise settles. *)
Inductive Settled (A : Type) :=
| Fulfilled (a : A)
| Rejected (e : JsError.t).
Arguments Fulfilled {A} a.
Arguments Rejected {A} e.

(** The argument of [resend.emails.send]. *)
Module Request.
Record t := mk {
  from : string;
  to : list string;
  subject : string;
  html : string
}.
End Request.

(** The error object of a Resend response. *)
Module ApiError.
Record t := mk { message : option string; statusCode : option Z }.
End ApiError.

(** The [{ data, error }] a call of [resend.emails.send] resolves to; [data],
    when it is not [null], is given by its [id], which may be [undefined]. *)
Module Response.
Record t := mk { data : option (option string); error : option ApiError.t }.
End Response.

(** The Resend service as [sendEmail] meets it: how the [n]-th call for a
    request settles, [n] counted from 0. *)
Abbreviation Service := (Request.t → nat → Settled Response.t) (only parsing).

Inductive Event :=
| Send (r : Request.t)
| Sleep (ms : Z).

Definition is_send (e : Event) : bool :=
  match e with Send _ => true | Sleep _ => false end.

(** The number of requests sent in a trace. *)
Definition sends (tr : list Event) : nat := length (filter is_send tr).

(** The fields of [process.env] the module reads. *)
Module Env.
Record t := mk {
  RESEND_API_KEY : option string;
  NODE_ENV : option string;
  RESEND_VERIFIED_DOMAIN : option string;
  RESEND_OWNER_EMAIL : option string;
  RESEND_FROM_EMAIL : option string
}.
End Env.

(** The argument [{ to, subject, text, html }] of [sendEmail]. *)
Module Message.
Record t := mk {
  to : option string;
  subject : string;
  text : option string;
  html : option string
}.
End Message.

(** What [sendEmail] resolves to; [details], the stack of the error, is
    left out. *)
Module SendResult.
Record t := mk {
  success : bool;
  messageId : option string;
  error : option string
}.
End SendResult.

(** What [notifyAdminsNewLoan] resolves to. *)
Module NotifyResult.
Record t := mk {
  success : bool;
  error : option string;
  successful : option nat;
  failed : option nat
}.
End NotifyResult.

Section MailService.
(** [String.prototype.toLowerCase] and [JSON.stringify], taken as given. *)
Variable toLowerCase : string → string.
Variable JSON_stringify : ApiError.t → string.
Variable env : Env.t.

Definition isProduction : bool :=
  bool_decide (Env.NODE_ENV env = Some "production")
  && truthy (Env.RESEND_VERIFIED_DOMAIN env).

Definition VERIFIED_OWNER_EMAIL : string :=
  if truthy (Env.RESEND_OWNER_EMAIL env)
  then String_of (Env.RESEND_OWNER_EMAIL env)
  else "dafecano@gmail.com".

Definition getRecipient (originalTo : string) : string :=
  if isProduction then originalTo
  else if bool_decide
            (toLowerCase originalTo = toLowerCase VERIFIED_OWNER_EMAIL)
  then originalTo
  else "delivered@resend.dev".

Definition getSubject (originalSubject originalTo : string) : string :=
  if isProduction then originalSubject
  else "[TEST → " +:+ originalTo +:+ "] " +:+ originalSubject.

(** [!to || !to.includes('@')] *)
Definition email_invalido (to : option string) : bool :=
  negb (truthy to) || negb (includes "@" (String_of to)).

(** The request of lines 58-75. *)
Definition request (to : string) (msg : Message.t) : Request.t :=
  let recipientEmail := getRecipient to in
  let emailSubject := getSubject (Message.subject msg) to in
  let fromEmail :=
    if isProduction && truthy (Env.RESEND_FROM_EMAIL env)
    then String_of (Env.RESEND_FROM_EMAIL env)
    else "Inventario <onboarding@resend.dev>" in
  Request.mk fromEmail [recipientEmail] emailSubject
    (if truthy (Message.html msg) then String_of (Message.html msg)
     else "<pre>" +:+ String_of (Message.text msg) +:+ "</pre>").

(** The [try] block of [sendEmail], lines 46-88: one attempt. *)
Definition try_send (resend : Service) (msg : Message.t)
    : Settled SendResult.t * list Event :=
  if email_invalido (Message.to msg)
  then (Rejected (JsError.Error
                    ("Email inválido: " +:+ String_of (Message.to msg))), [])
  else if negb (truthy (Env.RESEND_API_KEY env))
  then (Rejected (JsError.Error "RESEND_API_KEY no configurada"), [])
  else
    let req := request (String_of (Message.to msg)) msg in
    match resend req 0%nat with
    | Rejected e => (Rejected e, [Send req])
    | Fulfilled (Response.mk _ (Some error)) =>
        (Rejected (JsError.Error
           ("Resend error: " +:+
            (if truthy (ApiError.message error)
             then String_of (ApiError.message error)
             else JSON_stringify error))), [Send req])
    | Fulfilled (Response.mk None None) =>
        (Rejected (JsError.mk "TypeError"
                     "Cannot read properties of null (reading 'id')"
                     None None), [Send req])
    | Fulfilled (Response.mk (Some id) None) =>
        (Fulfilled (SendResult.mk true id None), [Send req])
    end.

(** [error.statusCode === 429 || error.code === 'ETIMEDOUT'] *)
Definition retryable (error : JsError.t) : bool :=
  bool_decide (JsError.statusCode error = Some 429)
  || bool_decide (JsError.code error = Some "ETIMEDOUT").

(** The object the [catch] block returns when it gives up. *)
Definition failure (error : JsError.t) : SendResult.t :=
  SendResult.mk false None
    (Some (if bool_decide (JsError.message error = "")
           then JsError.to_string error
           else JsError.message error)).

(** [sendEmail]: an attempt and, in the [catch] block, either a wait of
    2000 ms and a new call with one retry less, or the failure object.
    The calls the new attempt makes are the later calls of the service. *)
Fixpoint sendEmail (resend : Service) (msg : Message.t) (retries : nat)
    : Settled SendResult.t * list Event :=
  match try_send resend msg with
  | (Fulfilled r, tr) => (Fulfilled r, tr)
  | (Rejected error, tr) =>
    match retries with
    | S retries' =>
      if retryable error
      then
        let '(r, tr') :=
          sendEmail (λ req n, resend req (S n)) msg retries' in
        (r, tr ++ Sleep 2000 :: tr')
      else (Fulfilled (failure error), tr)
    | O => (Fulfilled (failure error), tr)
    end
  end.

(** The default of the parameter: [retries = 2]. *)
Definition sendEmail_default (resend : Service) (msg : Message.t) :=
  sendEmail resend msg 2.

(** [User.find({ rol: 'Admin' }).lean()] *)
Definition User_find_admins (db : DB) : list (Id * User.t) :=
  filter (λ p, User.rol (snd p) = "Admin") (map_to_list (users db)).

(** The predicate of [admins.filter], lines 360-372. *)
Definition admin_valido (admin : User.t) : bool :=
  if negb (truthy (User.email admin))
     || negb (includes "@" (String_of (User.email admin)))
  then false
  else if includes "demo.com" (String_of (User.email admin))
          || includes "test.com" (String_of (User.email admin))
  then false
  else true.

Definition validAdmins (admins : list (Id * User.t)) : list (Id * User.t) :=
  filter (λ p, admin_valido (snd p) = true) admins.

Definition subject_nuevo_prestamo : string :=
  "🔔 Nueva Solicitud de Préstamo - Requiere Aprobación".

(** [r.status === 'fulfilled' && r.value?.success] *)
Definition exitoso (r : Settled SendResult.t) : bool :=
  match r with
  | Fulfilled v => SendResult.success v
  | Rejected _ => false
  end.

(** [notifyAdminsNewLoan]. [html] is the page rendered from the user, the
    loan, the item and the classroom (lines 314-358). The calls of
    [sendEmail] run concurrently, each against its own sequence of answers
    of the service: [resend i] answers the call for the [i]-th valid
    administrator. The result comes with the calls made, each with the
    address it was given and its trace. *)
Definition notifyAdminsNewLoan (resend : nat → Service) (html : string)
    (db : DB) : NotifyResult.t * list (option string * list Event) :=
  let admins := User_find_admins db in
  if bool_decide (length admins = 0%nat)
  then (NotifyResult.mk false (Some "No admins found") None None, [])
  else
    let validAdmins := validAdmins admins in
    if bool_decide (length validAdmins = 0%nat)
    then (NotifyResult.mk false (Some "No valid admin emails") None None, [])
    else
      let calls :=
        imap (λ i admin,
                (User.email (snd admin),
                 sendEmail_default (resend i)
                   (Message.mk (User.email (snd admin))
                      subject_nuevo_prestamo None (Some html))))
             validAdmins in
      let results := (λ c, fst (snd c)) <$> calls in
      let successful := length (filter (λ r, exitoso r = true) results) in
      let failed := (length results - successful)%nat in
      (NotifyResult.mk (bool_decide (0 < successful)%nat) None
         (Some successful) (Some failed),
       (λ c, (fst c, snd (snd c))) <$> calls).
End MailService.

(** ** A concrete database

    One item with 3 of 5 units available, one pending request for 2 units
    of it by user 7, and an administrator. *)
Definition proyector : Item.t := Item.mk "Proyector" 3 5.

Definition solicitud : Loan.t :=
  Loan.mk 7 1 1 2 Pendiente None None None 100.

Definition escenario : DB :=
  mkDB {[ 1%N := solicitud ]}
       {[ 1%N := proyector ]}
       {[ 7%N := User.mk "Ana" (Some "ana@example.org") "Comun";
          8%N := User.mk "Luis" (Some "luis@example.org") "Admin" ]}.

(** ** The sending policy, in the words of the claims *)

(** The trace of [n] attempts to send [req], each but the first 2000 ms
    after the one before. *)
Fixpoint attempts_trace (req : Request.t) (n : nat) : list Event :=
  match n with
  | O => []
  | S n' =>
    Send req :: match n' with
                | O => []
                | S _ => Sleep 2000 :: attempts_trace req n'
                end
  end.

(** The answers of the service that make an attempt fail with
    [statusCode] 429 or [code] [ETIMEDOUT]. *)
Definition transient (answer : Settled Response.t) : bool :=
  match answer with
  | Rejected e =>
      bool_decide (JsError.statusCode e = Some 429)
      || bool_decide (JsError.code e = Some "ETIMEDOUT")
  | Fulfilled _ => false
  end.

(** The answers of the service that make an attempt succeed: some [data]
    and no error. *)
Definition delivered (answer : Settled Response.t) : bool :=
  match answer with
  | Fulfilled (Response.mk (Some _) None) => true
  | _ => false
  end.

(** A service that always answers with a rate-limit rejection, one that
    accepts at once, and an environment with an API key. *)
Definition siempre_429 : Service :=
  λ _ _, Rejected (JsError.mk "Error" "Too many requests" (Some 429) None).

Definition acepta : Service :=
  λ _ _, Fulfilled (Response.mk (Some (Some "msg-1")) None).

Definition entorno : Env.t :=
  Env.mk (Some "re_key") (Some "development") None None None.

Definition aviso : Message.t :=
  Message.mk (Some "ana@example.org") "Aviso" None (Some "<p>hola</p>").

(** An administrator whose address has an [@] and is on a demo domain. *)
Definition admin_demo : User.t :=
  User.mk "Demo" (Some "admin@demo.com") "Admin".

(** ** The four transitions of a stored loan *)

Inductive Action :=
| DoApprove (now : Fecha) (loanId : Id) (fechaEstimada : option Fecha)
| DoReject (loanId : Id)
| DoReturn (now : Fecha) (loanId : Id)
| DoDelay (loanId : Id) (nuevaFecha : option Fecha).

Definition target (a : Action) : Id :=
  match a with
  | DoApprove _ loanId _ | DoReject loanId | DoReturn _ loanId
  | DoDelay loanId _ => loanId
  end.

Definition perform (a : Action) : M Loan.t :=
  match a with
  | DoApprove now loanId fechaEstimada => approveLoan now loanId fechaEstimada
  | DoReject loanId => rejectLoan loanId
  | DoReturn now loanId => returnLoan now loanId
  | DoDelay loanId nuevaFecha => delayLoan loanId nuevaFecha
  end.

Definition perform_all (actions : list Action) (db : DB) : DB :=
  foldl (λ db a, snd (perform a db)) db actions.

(** The state a transition starts from and the state it leaves, as the
    tests and assignments of the four functions have them. *)
Definition moves (a : Action) (from to : Estado) : Prop :=
  match a with
  | DoApprove _ _ _ => from = Pendiente ∧ to = Aprobado
  | DoReject _ => from = Pendiente ∧ to = Rechazado
  | DoReturn _ _ => (from = Aprobado ∨ from = Aplazado) ∧ to = Devuelto
  | DoDelay _ _ => (from = Aprobado ∨ from = Aplazado) ∧ to = Aplazado
  end.

(** The fields of a loan and of an item that no transition assigns. *)
Definition loan_fixed (l : Loan.t) : Id * Id * Id * Z * Fecha :=
  (Loan.usuario l, Loan.item l, Loan.aula l, Loan.cantidad_prestamo l,
   Loan.createdAt l).

Definition item_fixed (i : Item.t) : string * Z :=
  (Item.nombre i, Item.cantidad_total_stock i).

(** The units of item [i] that loan [l] holds: its quantity while it is
    [Aprobado] or [Aplazado]. *)
Definition held (i : Id) (l : Loan.t) : Z :=
  if bool_decide (Loan.item l = i) && en_prestamo (Loan.estado l)
  then Loan.cantidad_prestamo l
  else 0.

(** The units of item [i] held by all the stored loans. *)
Definition outstanding (i : Id) (ls : gmap N Loan.t) : Z :=
  map_fold (λ _ l acc, held i l + acc) 0 ls.

(** What a transition can do to the database: nothing, with an error of
    status 400 or 404; or store the loan in its new state, alone, with the
    units of its item taken, or with them given back. *)
Inductive effect (db : DB) (a : Action) : Completion Loan.t → DB → Prop :=
| effect_throw message status :
    status = 400 ∨ status = 404 →
    effect db a (Throw (HttpError message status)) db
| effect_state loan loan' :
    loans db !! target a = Some loan →
    moves a (Loan.estado loan) (Loan.estado loan') →
    loan_fixed loan' = loan_fixed loan →
    en_prestamo (Loan.estado loan') = en_prestamo (Loan.estado loan) →
    effect db a (Normal loan')
      (mkDB (<[target a := loan']> (loans db)) (items db) (users db))
| effect_take loan loan' it :
    loans db !! target a = Some loan →
    moves a (Loan.estado loan) (Loan.estado loan') →
    loan_fixed loan' = loan_fixed loan →
    Loan.estado loan = Pendiente →
    Loan.estado loan' = Aprobado →
    items db !! Loan.item loan = Some it →
    Loan.cantidad_prestamo loan ≤ Item.cantidad_disponible it →
    effect db a (Normal loan')
      (mkDB (<[target a := loan']> (loans db))
            (<[Loan.item loan :=
                 Item.set_cantidad_disponible
                   (Item.cantidad_disponible it - Loan.cantidad_prestamo loan)
                   it]> (items db))
            (users db))
| effect_give loan loan' it :
    loans db !! target a = Some loan →
    moves a (Loan.estado loan) (Loan.estado loan') →
    loan_fixed loan' = loan_fixed loan →
    en_prestamo (Loan.estado loan) = true →
    Loan.estado loan' = Devuelto →
    items db !! Loan.item loan = Some it →
    effect db a (Normal loan')
      (mkDB (<[target a := loan']> (loans db))
            (<[Loan.item loan :=
                 Item.set_cantidad_disponible (restored it loan) it]>
               (items db))
            (users db)).

(** The time a trace spends waiting, in milliseconds. *)
Definition waited (tr : list Event) : Z :=
  foldr (λ ev acc, match ev with Sleep ms => ms + acc | Send _ => acc end) 0 tr.

(** The message [notifyAdminsNewLoan] hands to [sendEmail] for an
    administrator (line 382). *)
Definition aviso_admin (html : string) (admin : Id * User.t) : Message.t :=
  Message.mk (User.email (snd admin)) subject_nuevo_prestamo None (Some html).

(** ** approveLoan, await by await

    An [async] function gives up control at each [await]: between two of
    them other operations may run against the database. A call of
    [approveLoan] in progress is the [await] it is suspended at, with its
    local variables; [step] resolves that [await] against the database of
    the moment and runs the synchronous code up to the next one. The loan
    and the item held in the local variables are the copies read at lines 53
    and 60; they are not read again. *)
Inductive ApproveTask :=
| AwaitLoan (now : Fecha) (loanId : Id) (fechaEstimada : option Fecha)
| AwaitItem (now : Fecha) (loanId : Id) (fecha : Fecha) (loan : Loan.t)
| AwaitSaveLoan (loanId : Id) (loan : Loan.t) (item : Item.t)
| AwaitSaveReverted (loanId : Id) (loan : Loan.t)
| AwaitSaveItem (loanId : Id) (loan : Loan.t) (item : Item.t)
| Finished (c : Completion Loan.t).

Definition step (t : ApproveTask) (db : DB) : ApproveTask * DB :=
  match t with
  | AwaitLoan now loanId fechaEstimada =>
    (* line 53, then lines 54-60 *)
    match loans db !! loanId with
    | None => (Finished (Throw err_prestamo_no_encontrado), db)
    | Some loan =>
      if negb (bool_decide (Loan.estado loan = Pendiente))
      then (Finished (Throw err_no_pendiente), db)
      else match fechaEstimada with
      | None => (Finished (Throw err_fecha_obligatoria), db)
      | Some fecha => (AwaitItem now loanId fecha loan, db)
      end
    end
  | AwaitItem now loanId fecha loan =>
    (* line 60, then lines 61-72 *)
    match items db !! Loan.item loan with
    | None => (Finished (Throw err_item_no_encontrado), db)
    | Some item =>
      if Loan.cantidad_prestamo loan >? Item.cantidad_disponible item
      then (Finished (Throw err_stock_insuficiente), db)
      else (AwaitSaveLoan loanId (approved now fecha loan) item, db)
    end
  | AwaitSaveLoan loanId loan item =>
    (* line 72, then lines 76-84 *)
    let db := mkDB (<[loanId := loan]> (loans db)) (items db) (users db) in
    let item := Item.set_cantidad_disponible
      (Item.cantidad_disponible item - Loan.cantidad_prestamo loan) item in
    if Item.cantidad_disponible item <? 0 then
      let loan := Loan.set_estado Pendiente loan in
      let loan := Loan.set_fecha_prestamo None loan in
      let loan := Loan.set_fecha_estimada None loan in
      (AwaitSaveReverted loanId loan, db)
    else (AwaitSaveItem loanId loan item, db)
  | AwaitSaveReverted loanId loan =>
    (* line 81, then line 82 *)
    (Finished (Throw err_stock_insuficiente),
     mkDB (<[loanId := loan]> (loans db)) (items db) (users db))
  | AwaitSaveItem loanId loan item =>
    (* line 84, then line 120 *)
    (Finished (Normal loan),
     mkDB (loans db) (<[Loan.item loan := item]> (items db)) (users db))
  | Finished c => (Finished c, db)
  end.

(** A call that runs with nothing in between: its four awaits in a row. *)
Definition run_alone (t : ApproveTask) (db : DB) : ApproveTask * DB :=
  Nat.iter 4 (λ s, step (fst s) (snd s)) (t, db).

(** A call whose awaits each meet some database, whatever the other
    operations have made of it: the states the call goes through. *)
Definition run_against (dbs : list DB) (t : ApproveTask) : ApproveTask :=
  foldl (λ t db, fst (step t db)) t dbs.

(** Two calls in progress on one database; the schedule says which of them
    resolves its await next ([true] for the first). *)
Definition step_of (who : bool) (s : ApproveTask * ApproveTask * DB)
    : ApproveTask * ApproveTask * DB :=
  let '(a, b, db) := s in
  if who
  then let '(a', db') := step a db in (a', b, db')
  else let '(b', db') := step b db in (a, b', db').

Definition interleave (schedule : list bool)
    (s : ApproveTask * ApproveTask * DB) : ApproveTask * ApproveTask * DB :=
  foldl (λ s who, step_of who s) s schedule.

(** One unit available, two pending requests for one unit each. *)
Definition un_proyector : Item.t := Item.mk "Proyector" 1 5.

Definition solicitud_a : Loan.t := Loan.mk 7 1 1 1 Pendiente None None None 100.
Definition solicitud_b : Loan.t := Loan.mk 9 1 1 1 Pendiente None None None 101.

Definition carrera : DB :=
  mkDB {[ 1%N := solicitud_a; 2%N := solicitud_b ]}
       {[ 1%N := un_proyector ]}
       ∅.

(** A message for the verified owner's default address. *)
Definition aviso_owner : Message.t :=
  Message.mk (Some "dafecano@gmail.com") "Aviso" None (Some "<p>hola</p>").

(** The pending request for 2 units, with 1 unit available. *)
Definition sin_stock : DB :=
  mkDB (loans escenario) {[ 1%N := un_proyector ]} (users escenario).

(** What every state of a call started at line 53 satisfies: the loan and
    the item held while the loan is being saved passed the test of line 65,
    and the call is not saving a reverted loan. *)
Definition guarded (t : ApproveTask) : Prop :=
  match t with
  | AwaitSaveLoan _ loan item =>
      Loan.cantidad_prestamo loan ≤ Item.cantidad_disponible item
  | AwaitSaveReverted _ _ => False
  | _ => True
  end.

(** * Properties *)

Ltac unfold_db :=
  unfold mbind, M_bind, bind, mret, M_ret, ret, throw, Loan_findById,
    Item_findById, Loan_save, Item_save, Loan_findByIdAndDelete,
    populate_usuario in *.

Section Approve.
Context (db : DB) (now : Fecha) (loanId : Id) (loan : Loan.t).
Hypothesis Hloan : loans db !! loanId = Some loan.

Lemma approveLoan_not_pending fechaEstimada :
  Loan.estado loan ≠ Pendiente →
  approveLoan now loanId fechaEstimada db = (Throw err_no_pendiente, db).
Proof.
  intros Hne. unfold approveLoan. unfold_db. rewrite Hloan.
  by rewrite bool_decide_false.
Qed.

Lemma approveLoan_no_date :
  Loan.estado loan = Pendiente →
  approveLoan now loanId None db = (Throw err_fecha_obligatoria, db).
Proof.
  intros He. unfold approveLoan. unfold_db. rewrite Hloan.
  by rewrite bool_decide_true.
Qed.

Lemma approveLoan_no_item fecha :
  Loan.estado loan = Pendiente →
  items db !! Loan.item loan = None →
  approveLoan now loanId (Some fecha) db = (Throw err_item_no_encontrado, db).
Proof.
  intros He Hi. unfold approveLoan. unfold_db. rewrite Hloan.
  rewrite bool_decide_true by done. cbn. by rewrite Hi.
Qed.

Lemma approveLoan_insufficient fecha it :
  Loan.estado loan = Pendiente →
  items db !! Loan.item loan = Some it →
  Item.cantidad_disponible it < Loan.cantidad_prestamo loan →
  approveLoan now loanId (Some fecha) db = (Throw err_stock_insuficiente, db).
Proof.
  intros He Hi Hlt. unfold approveLoan. unfold_db. rewrite Hloan.
  rewrite bool_decide_true by done. cbn. rewrite Hi.
  destruct (Z.gtb_spec (Loan.cantidad_prestamo loan)
              (Item.cantidad_disponible it)); [done | lia].
Qed.

Lemma approveLoan_ok fecha it :
  Loan.estado loan = Pendiente →
  items db !! Loan.item loan = Some it →
  Loan.cantidad_prestamo loan ≤ Item.cantidad_disponible it →
  approveLoan now loanId (Some fecha) db =
    (Normal (approved now fecha loan),
     mkDB (<[loanId := approved now fecha loan]> (loans db))
          (<[Loan.item loan :=
               Item.set_cantidad_disponible
                 (Item.cantidad_disponible it - Loan.cantidad_prestamo loan)
                 it]> (items db))
          (users db)).
Proof.
  intros He Hi Hle. unfold approveLoan. unfold_db. rewrite Hloan.
  rewrite bool_decide_true by done. cbn. rewrite Hi.
  destruct (Z.gtb_spec (Loan.cantidad_prestamo loan)
              (Item.cantidad_disponible it)); [lia |].
  unfold approve_commit. unfold_db. cbn.
  destruct (Z.ltb_spec
              (Item.cantidad_disponible it - Loan.cantidad_prestamo loan) 0);
    [lia | done].
Qed.
End Approve.

Lemma approveLoan_not_found db now loanId fechaEstimada :
  loans db !! loanId = None →
  approveLoan now loanId fechaEstimada db = (Throw err_prestamo_no_encontrado, db).
Proof. intros H. unfold approveLoan. unfold_db. by rewrite H. Qed.

Section Return.
Context (db : DB) (now : Fecha) (loanId : Id) (loan : Loan.t).
Hypothesis Hloan : loans db !! loanId = Some loan.

Lemma returnLoan_invalid :
  en_prestamo (Loan.estado loan) = false →
  returnLoan now loanId db = (Throw err_no_devolver, db).
Proof.
  intros He. unfold returnLoan. unfold_db. rewrite Hloan. by rewrite He.
Qed.

Lemma returnLoan_no_item :
  en_prestamo (Loan.estado loan) = true →
  items db !! Loan.item loan = None →
  returnLoan now loanId db = (Throw err_item_no_encontrado, db).
Proof.
  intros He Hi. unfold returnLoan. unfold_db. rewrite Hloan, He. cbn.
  by rewrite Hi.
Qed.

Lemma returnLoan_ok it :
  en_prestamo (Loan.estado loan) = true →
  items db !! Loan.item loan = Some it →
  returnLoan now loanId db =
    (Normal (returned now loan),
     mkDB (<[loanId := returned now loan]> (loans db))
          (<[Loan.item loan :=
               Item.set_cantidad_disponible (restored it loan) it]>
             (items db))
          (users db)).
Proof.
  intros He Hi. unfold returnLoan. unfold_db. rewrite Hloan, He. cbn.
  rewrite Hi. cbn. unfold restored. do 3 f_equal.
  destruct (Z.gtb_spec
              (Item.cantidad_disponible it + Loan.cantidad_prestamo loan)
              (Item.cantidad_total_stock it)).
  - rewrite Z.min_r by lia. done.
  - rewrite Z.min_l by lia. done.
Qed.
End Return.

Lemma returnLoan_not_found db now loanId :
  loans db !! loanId = None →
  returnLoan now loanId db = (Throw err_prestamo_no_encontrado, db).
Proof. intros H. unfold returnLoan. unfold_db. by rewrite H. Qed.

(** ** The stock invariant under approvals and returns *)

(** One operation either leaves the database as it is, or rewrites one loan,
    keeping its quantity, and the counter of the item of that loan. *)
Lemma exec_cases (op : Op) (db : DB) :
  exec op db = db ∨
  ∃ loanId loan loan' it n,
    loans db !! loanId = Some loan ∧
    items db !! Loan.item loan = Some it ∧
    Loan.cantidad_prestamo loan' = Loan.cantidad_prestamo loan ∧
    exec op db =
      mkDB (<[loanId := loan']> (loans db))
           (<[Loan.item loan := Item.set_cantidad_disponible n it]> (items db))
           (users db) ∧
    ((Loan.cantidad_prestamo loan ≤ Item.cantidad_disponible it ∧
      n = Item.cantidad_disponible it - Loan.cantidad_prestamo loan)
     ∨ n = restored it loan).
Proof.
  destruct op as [now loanId fechaEstimada | now loanId]; cbn.
  - destruct (loans db !! loanId) as [loan|] eqn:Hloan;
      [| left; by rewrite approveLoan_not_found].
    destruct (decide (Loan.estado loan = Pendiente)) as [He|He];
      [| left; by erewrite approveLoan_not_pending].
    destruct fechaEstimada as [fecha|];
      [| left; by erewrite approveLoan_no_date].
    destruct (items db !! Loan.item loan) as [it|] eqn:Hit;
      [| left; by erewrite approveLoan_no_item].
    destruct (decide (Loan.cantidad_prestamo loan ≤ Item.cantidad_disponible it))
      as [Hle|Hgt]; [| left; erewrite approveLoan_insufficient; eauto; lia].
    right.
    exists loanId, loan, (approved now fecha loan), it,
      (Item.cantidad_disponible it - Loan.cantidad_prestamo loan).
    erewrite approveLoan_ok by eauto. cbn. repeat split; eauto.
  - destruct (loans db !! loanId) as [loan|] eqn:Hloan;
      [| left; by rewrite returnLoan_not_found].
    destruct (en_prestamo (Loan.estado loan)) eqn:He;
      [| left; by erewrite returnLoan_invalid].
    destruct (items db !! Loan.item loan) as [it|] eqn:Hit;
      [| left; by erewrite returnLoan_no_item].
    right. exists loanId, loan, (returned now loan), it, (restored it loan).
    erewrite returnLoan_ok by eauto. cbn. repeat split; eauto.
Qed.

Lemma exec_cantidades_validas (op : Op) (db : DB) :
  cantidades_validas db → cantidades_validas (exec op db).
Proof.
  intros Hv.
  destruct (exec_cases op db)
    as [-> | (loanId & loan & loan' & it & n & Hl & _ & Hq & -> & _)]; [done |].
  intros id l. cbn. rewrite lookup_insert. case_decide.
  - intros [= <-]. rewrite Hq. eauto.
  - apply Hv.
Qed.

Lemma exec_stock_ok (op : Op) (db : DB) (id : Id) (it : Item.t) :
  cantidades_validas db →
  items db !! id = Some it → stock_ok it →
  ∃ it', items (exec op db) !! id = Some it' ∧ stock_ok it'.
Proof.
  intros Hv Hit Hok.
  destruct (exec_cases op db)
    as [-> | (loanId & loan & loan' & it0 & n & Hl & Hi & _ & -> & Hn)];
    [eauto |].
  cbn. rewrite lookup_insert. case_decide; [| eauto].
  subst id. rewrite Hit in Hi. injection Hi as <-.
  eexists. split; [done |].
  specialize (Hv _ _ Hl). unfold stock_ok, restored in *. cbn.
  destruct Hn as [[Hle ->] | ->]; lia.
Qed.

(** C1. For every item that starts with
    [0 <= cantidad_disponible <= cantidad_total_stock], the item stored
    after any finite sequence of [approveLoan] and [returnLoan] calls,
    whether they succeed or fail, satisfies it too. The quantities of the
    stored loans are positive, as the data model has them. *)
Theorem stock_invariant_preserved (ops : list Op) (db : DB) (id : Id)
    (it : Item.t) :
  cantidades_validas db →
  items db !! id = Some it →
  stock_ok it →
  ∃ it', items (run ops db) !! id = Some it' ∧ stock_ok it'.
Proof.
  revert db it. unfold run.
  induction ops as [| op ops IH]; intros db it Hv Hit Hok; cbn.
  - eauto.
  - destruct (exec_stock_ok op db id it Hv Hit Hok) as (it1 & Hit1 & Hok1).
    eapply IH; eauto using exec_cantidades_validas.
Qed.

Lemma escenario_cantidades_validas : cantidades_validas escenario.
Proof.
  intros id l H. unfold escenario in H. cbn in H.
  apply lookup_singleton_Some in H as [_ <-]. reflexivity.
Qed.

Lemma stock_invariant_preserved_witness :
  cantidades_validas escenario ∧
  items escenario !! 1%N = Some proyector ∧
  stock_ok proyector ∧
  ∃ it',
    items (run [Approve 10 1 (Some 20); Return 30 1; Return 40 1;
                Approve 50 1 None] escenario) !! 1%N = Some it'
    ∧ stock_ok it'.
Proof.
  assert (Hok : stock_ok proyector) by (unfold stock_ok; cbn; lia).
  split; [exact escenario_cantidades_validas |].
  split; [reflexivity |].
  split; [exact Hok |].
  exact (stock_invariant_preserved _ escenario 1%N proyector
           escenario_cantidades_validas eq_refl Hok).
Defined.

(** ** approveLoan *)

(** C2. On a loan in state [Pendiente], with an estimated date and a
    quantity not above the available units of its item, [approveLoan]
    succeeds: the stored loan is [Aprobado], its [fecha_prestamo] is the
    current time, its [fecha_estimada] the given date, and the available
    units of the item are lowered by exactly the quantity. With 3 of 5 units
    available and a quantity of 2, the approval leaves 1 unit and the return
    that follows leaves 3. *)
Theorem approveLoan_success (db : DB) (now : Fecha) (loanId : Id)
    (fecha : Fecha) (loan : Loan.t) (it : Item.t) :
  loans db !! loanId = Some loan →
  Loan.estado loan = Pendiente →
  items db !! Loan.item loan = Some it →
  Loan.cantidad_prestamo loan ≤ Item.cantidad_disponible it →
  (∃ loan' it',
     let db' := snd (approveLoan now loanId (Some fecha) db) in
     fst (approveLoan now loanId (Some fecha) db) = Normal loan' ∧
     loans db' !! loanId = Some loan' ∧
     Loan.estado loan' = Aprobado ∧
     Loan.fecha_prestamo loan' = Some now ∧
     Loan.fecha_estimada loan' = Some fecha ∧
     Loan.cantidad_prestamo loan' = Loan.cantidad_prestamo loan ∧
     Loan.item loan' = Loan.item loan ∧
     items db' !! Loan.item loan = Some it' ∧
     Item.cantidad_disponible it' =
       Item.cantidad_disponible it - Loan.cantidad_prestamo loan ∧
     Item.cantidad_total_stock it' = Item.cantidad_total_stock it)
  ∧
  (Item.cantidad_disponible it = 3 →
   Item.cantidad_total_stock it = 5 →
   Loan.cantidad_prestamo loan = 2 →
   ∀ now',
     let db1 := snd (approveLoan now loanId (Some fecha) db) in
     let db2 := snd (returnLoan now' loanId db1) in
     (Item.cantidad_disponible <$> items db1 !! Loan.item loan) = Some 1 ∧
     (Loan.estado <$> loans db1 !! loanId) = Some Aprobado ∧
     (Item.cantidad_disponible <$> items db2 !! Loan.item loan) = Some 3 ∧
     (Loan.estado <$> loans db2 !! loanId) = Some Devuelto).
Proof.
  intros Hloan He Hit Hle.
  rewrite (approveLoan_ok db now loanId loan Hloan fecha it He Hit Hle).
  split.
  - eexists _, _. cbn. rewrite !lookup_insert_eq. repeat split.
  - intros Hd Ht Hq now'. cbn zeta.
    set (db1 := snd _).
    assert (Hl1 : loans db1 !! loanId = Some (approved now fecha loan))
      by (subst db1; cbn; by rewrite lookup_insert_eq).
    erewrite (returnLoan_ok db1 now' loanId _ Hl1); cycle 1.
    + reflexivity.
    + subst db1. cbn. by rewrite lookup_insert_eq.
    + subst db1. cbn. rewrite !lookup_insert_eq. cbn.
      unfold restored. cbn. rewrite Hd, Ht, Hq. repeat split.
Qed.

Lemma approveLoan_success_witness :
  loans escenario !! 1%N = Some solicitud ∧
  (Item.cantidad_disponible <$>
     items (snd (approveLoan 10 1 (Some 20) escenario)) !! 1%N) = Some 1 ∧
  (Item.cantidad_disponible <$>
     items (snd (returnLoan 30 1 (snd (approveLoan 10 1 (Some 20) escenario))))
       !! 1%N) = Some 3.
Proof.
  pose proof (approveLoan_success escenario 10 1 20 solicitud proyector
                eq_refl eq_refl eq_refl ltac:(cbn; lia)) as [_ H].
  specialize (H eq_refl eq_refl eq_refl 30). cbn zeta in H.
  destruct H as (H1 & _ & H3 & _).
  split; [reflexivity |]. split; [exact H1 | exact H3].
Defined.

(** Whatever [approveLoan] throws, it has written nothing: the test of line
    65 on the in-memory item rules out a negative counter at line 77. *)
Lemma approveLoan_throw_unchanged (db : DB) (now : Fecha) (loanId : Id)
    (fechaEstimada : option Fecha) (e : Error) :
  fst (approveLoan now loanId fechaEstimada db) = Throw e →
  snd (approveLoan now loanId fechaEstimada db) = db.
Proof.
  destruct (loans db !! loanId) as [loan|] eqn:Hloan;
    [| by rewrite approveLoan_not_found].
  destruct (decide (Loan.estado loan = Pendiente)) as [He|He];
    [| by erewrite approveLoan_not_pending].
  destruct fechaEstimada as [fecha|]; [| by erewrite approveLoan_no_date].
  destruct (items db !! Loan.item loan) as [it|] eqn:Hit;
    [| by erewrite approveLoan_no_item].
  destruct (decide (Loan.cantidad_prestamo loan ≤ Item.cantidad_disponible it)).
  - by erewrite approveLoan_ok.
  - erewrite approveLoan_insufficient; eauto; lia.
Qed.

(** C3, as claimed, fails: on a stored [Pendiente] loan whose quantity
    exceeds the available units of its item, [approveLoan] without a date
    fails with [ValidationError], not with [InsufficientStock], because the
    date is tested before the item is read. *)
Lemma approveLoan_no_date_counterexample :
  loans sin_stock !! 1%N = Some solicitud ∧
  Loan.estado solicitud = Pendiente ∧
  items sin_stock !! Loan.item solicitud = Some un_proyector ∧
  Loan.cantidad_prestamo solicitud > Item.cantidad_disponible un_proyector ∧
  fst (approveLoan 10 1 None sin_stock) = Throw err_fecha_obligatoria ∧
  fails_with ValidationError (fst (approveLoan 10 1 None sin_stock)) ∧
  ¬ fails_with InsufficientStock (fst (approveLoan 10 1 None sin_stock)).
Proof.
  split; [reflexivity |]. split; [reflexivity |]. split; [reflexivity |].
  split; [reflexivity |]. split; [reflexivity |]. split.
  - by eexists.
  - intros (e & He & Hk). cbn in He. injection He as <-. discriminate Hk.
Qed.

(** C3, amended. [approveLoan] fails with [InvalidState] when the loan is
    not [Pendiente], and with [InsufficientStock] when the loan is
    [Pendiente], a date is given and the quantity exceeds the available
    units of its item; whenever the quantity exceeds the available units it
    fails with status 400; and in these cases, as whenever it fails, the
    loans and the items are as they were. *)
Theorem approveLoan_failure (db : DB) (now : Fecha) (loanId : Id)
    (loan : Loan.t) :
  loans db !! loanId = Some loan →
  (∀ fechaEstimada,
     Loan.estado loan ≠ Pendiente →
     fails_with InvalidState (fst (approveLoan now loanId fechaEstimada db)) ∧
     snd (approveLoan now loanId fechaEstimada db) = db)
  ∧
  (∀ fecha it,
     Loan.estado loan = Pendiente →
     items db !! Loan.item loan = Some it →
     Loan.cantidad_prestamo loan > Item.cantidad_disponible it →
     fails_with InsufficientStock
       (fst (approveLoan now loanId (Some fecha) db)) ∧
     snd (approveLoan now loanId (Some fecha) db) = db)
  ∧
  (∀ fechaEstimada it,
     items db !! Loan.item loan = Some it →
     Loan.cantidad_prestamo loan > Item.cantidad_disponible it →
     ∃ message,
       fst (approveLoan now loanId fechaEstimada db)
         = Throw (HttpError message 400))
  ∧
  (∀ fechaEstimada e,
     fst (approveLoan now loanId fechaEstimada db) = Throw e →
     snd (approveLoan now loanId fechaEstimada db) = db).
Proof.
  intros Hloan. split; [| split; [| split]].
  - intros fechaEstimada He. erewrite approveLoan_not_pending by eauto.
    split; [by eexists | done].
  - intros fecha it He Hit Hgt.
    erewrite approveLoan_insufficient by (eauto; lia).
    split; [by eexists | done].
  - intros fechaEstimada it Hit Hgt.
    destruct (decide (Loan.estado loan = Pendiente)) as [He|He];
      [| erewrite approveLoan_not_pending by eauto; by eexists].
    destruct fechaEstimada as [fecha|];
      [| erewrite approveLoan_no_date by eauto; by eexists].
    erewrite approveLoan_insufficient by (eauto; lia). by eexists.
  - intros fechaEstimada e. apply approveLoan_throw_unchanged.
Qed.

Lemma approveLoan_failure_witness :
  loans escenario !! 1%N = Some solicitud ∧
  fails_with InsufficientStock
    (fst (approveLoan 10 1 (Some 20)
            (mkDB (loans escenario) {[ 1%N := Item.mk "Proyector" 1 5 ]}
                  (users escenario)))).
Proof.
  split; [reflexivity |].
  refine (proj1 (proj1 (proj2 (approveLoan_failure
            (mkDB (loans escenario) {[ 1%N := Item.mk "Proyector" 1 5 ]}
                  (users escenario)) 10 1 solicitud eq_refl))
            20 (Item.mk "Proyector" 1 5) eq_refl eq_refl _)).
  cbn. lia.
Defined.

(** *** The compensation of approveLoan *)

(** A call that runs with nothing in between is [approveLoan]. *)
Lemma run_alone_approveLoan (now : Fecha) (loanId : Id)
    (fechaEstimada : option Fecha) (db : DB) :
  run_alone (AwaitLoan now loanId fechaEstimada) db
  = (Finished (fst (approveLoan now loanId fechaEstimada db)),
     snd (approveLoan now loanId fechaEstimada db)).
Proof.
  unfold run_alone. cbn [Nat.iter].
  destruct (loans db !! loanId) as [loan|] eqn:Hloan.
  2: { rewrite approveLoan_not_found by done. cbn. by rewrite Hloan. }
  destruct (decide (Loan.estado loan = Pendiente)) as [He|He].
  2: { erewrite approveLoan_not_pending by eauto. cbn. rewrite Hloan.
       by rewrite bool_decide_false. }
  destruct fechaEstimada as [fecha|].
  2: { erewrite approveLoan_no_date by eauto. cbn. rewrite Hloan.
       by rewrite bool_decide_true. }
  destruct (items db !! Loan.item loan) as [it|] eqn:Hit.
  2: { erewrite approveLoan_no_item by eauto. cbn. rewrite Hloan.
       rewrite bool_decide_true by done. cbn. by rewrite Hit. }
  destruct (Loan.cantidad_prestamo loan >? Item.cantidad_disponible it)
    eqn:Hgtb; pose proof Hgtb as Hcmp; rewrite Z.gtb_ltb in Hcmp;
    [apply Z.ltb_lt in Hcmp | apply Z.ltb_ge in Hcmp].
  - erewrite approveLoan_insufficient by (eauto; lia). cbn. rewrite Hloan.
    rewrite bool_decide_true by done. cbn. rewrite Hit. by rewrite Hgtb.
  - erewrite approveLoan_ok by eauto. cbn. rewrite Hloan.
    rewrite bool_decide_true by done. cbn. rewrite Hit. rewrite Hgtb. cbn.
    destruct (Z.ltb_spec
                (Item.cantidad_disponible it - Loan.cantidad_prestamo loan) 0);
      [lia | done].
Qed.

Lemma step_guarded (t : ApproveTask) (db : DB) :
  guarded t → guarded (fst (step t db)).
Proof.
  destruct t as [now loanId f | now loanId fecha loan | loanId loan item
                 | loanId loan | loanId loan item | c]; cbn; intros Hg.
  - destruct (loans db !! loanId) as [loan|]; [| done].
    destruct (negb _); [done |]. by destruct f.
  - destruct (items db !! Loan.item loan) as [it|]; [| done].
    destruct (Z.gtb_spec (Loan.cantidad_prestamo loan)
                (Item.cantidad_disponible it)); [done |]. cbn. lia.
  - destruct (Z.ltb_spec
                (Item.cantidad_disponible item - Loan.cantidad_prestamo loan) 0);
      [lia | done].
  - done.
  - done.
  - done.
Qed.

Lemma run_against_guarded (dbs : list DB) (t : ApproveTask) :
  guarded t → guarded (run_against dbs t).
Proof.
  revert t. unfold run_against.
  induction dbs as [| db dbs IH]; intros t Hg; cbn; [done |].
  by apply IH, step_guarded.
Qed.


(** ** returnLoan *)

(** C5. On a loan in state [Aprobado] or [Aplazado] whose item is stored,
    [returnLoan] succeeds: the stored loan is [Devuelto], its
    [fecha_retorno] is the current time, and the available units of the item
    become the sum with the quantity, capped at the total stock; the cap
    raises no error. On a loan in state [Pendiente], [Rechazado] or
    [Devuelto] it fails with [InvalidState] and writes nothing. *)
Theorem returnLoan_spec (db : DB) (now : Fecha) (loanId : Id) (loan : Loan.t) :
  loans db !! loanId = Some loan →
  (Loan.estado loan = Aprobado ∨ Loan.estado loan = Aplazado →
   ∀ it, items db !! Loan.item loan = Some it →
   ∃ loan' it',
     let db' := snd (returnLoan now loanId db) in
     fst (returnLoan now loanId db) = Normal loan' ∧
     loans db' !! loanId = Some loan' ∧
     Loan.estado loan' = Devuelto ∧
     Loan.fecha_retorno loan' = Some now ∧
     items db' !! Loan.item loan = Some it' ∧
     Item.cantidad_disponible it' =
       Z.min (Item.cantidad_disponible it + Loan.cantidad_prestamo loan)
             (Item.cantidad_total_stock it) ∧
     Item.cantidad_total_stock it' = Item.cantidad_total_stock it)
  ∧
  (Loan.estado loan = Pendiente ∨ Loan.estado loan = Rechazado
   ∨ Loan.estado loan = Devuelto →
   fails_with InvalidState (fst (returnLoan now loanId db)) ∧
   snd (returnLoan now loanId db) = db).
Proof.
  intros Hloan. split.
  - intros He it Hit.
    rewrite (returnLoan_ok db now loanId loan Hloan it); [| | done].
    + eexists _, _. cbn. rewrite !lookup_insert_eq. repeat split.
    + unfold en_prestamo. by destruct He as [-> | ->].
  - intros He. rewrite (returnLoan_invalid db now loanId loan Hloan).
    + split; [by eexists | done].
    + unfold en_prestamo. by destruct He as [-> | [-> | ->]].
Qed.

Lemma returnLoan_spec_witness :
  loans (snd (approveLoan 10 1 (Some 20) escenario)) !! 1%N
    = Some (approved 10 20 solicitud) ∧
  ∃ loan' it',
    fst (returnLoan 30 1 (snd (approveLoan 10 1 (Some 20) escenario)))
      = Normal loan' ∧
    Loan.estado loan' = Devuelto ∧
    items (snd (returnLoan 30 1 (snd (approveLoan 10 1 (Some 20) escenario))))
      !! 1%N = Some it' ∧
    Item.cantidad_disponible it' = 3.
Proof.
  split; [reflexivity |].
  destruct (proj1 (returnLoan_spec (snd (approveLoan 10 1 (Some 20) escenario))
                     30 1 (approved 10 20 solicitud) eq_refl)
              (or_introl eq_refl) (Item.mk "Proyector" 1 5) eq_refl)
    as (loan' & it' & H1 & _ & H3 & _ & H5 & H6 & _).
  exists loan', it'. repeat split; assumption.
Defined.

(** ** delayLoan *)

Section Delay.
Context (db : DB) (loanId : Id) (loan : Loan.t).
Hypothesis Hloan : loans db !! loanId = Some loan.

Lemma delayLoan_invalid nuevaFecha :
  en_prestamo (Loan.estado loan) = false →
  delayLoan loanId nuevaFecha db = (Throw err_no_aplazar, db).
Proof.
  intros He. unfold delayLoan. unfold_db. rewrite Hloan. by rewrite He.
Qed.

Lemma delayLoan_no_date :
  en_prestamo (Loan.estado loan) = true →
  delayLoan loanId None db = (Throw err_nueva_fecha_obligatoria, db).
Proof.
  intros He. unfold delayLoan. unfold_db. rewrite Hloan. by rewrite He.
Qed.

Lemma delayLoan_ok fecha :
  en_prestamo (Loan.estado loan) = true →
  delayLoan loanId (Some fecha) db =
    (Normal (Loan.set_fecha_estimada (Some fecha)
               (Loan.set_estado Aplazado loan)),
     mkDB (<[loanId := Loan.set_fecha_estimada (Some fecha)
                         (Loan.set_estado Aplazado loan)]> (loans db))
          (items db) (users db)).
Proof.
  intros He. unfold delayLoan. unfold_db. rewrite Hloan. by rewrite He.
Qed.
End Delay.

(** C6, as claimed, fails: on a stored loan that is still [Pendiente],
    [delayLoan] without a date fails with [InvalidState], not with
    [ValidationError], because the state is tested before the date. *)
Lemma delayLoan_no_date_counterexample :
  loans escenario !! 1%N = Some solicitud ∧
  fst (delayLoan 1 None escenario) = Throw err_no_aplazar ∧
  fails_with InvalidState (fst (delayLoan 1 None escenario)) ∧
  ¬ fails_with ValidationError (fst (delayLoan 1 None escenario)).
Proof.
  split; [reflexivity |]. split; [reflexivity |]. split.
  - by eexists.
  - intros (e & He & Hk). cbn in He. injection He as <-. discriminate Hk.
Qed.

(** C6, amended. On a stored loan in state [Aprobado] or [Aplazado],
    [delayLoan] without a date fails with [ValidationError]; on a stored
    loan in any other state it fails with [InvalidState], with or without a
    date. With a date on a loan in state [Aprobado] it succeeds: the stored
    loan is [Aplazado], its [fecha_estimada] is the given date, and the
    items are as they were. *)
Theorem delayLoan_spec (db : DB) (loanId : Id) (loan : Loan.t) :
  loans db !! loanId = Some loan →
  (Loan.estado loan = Aprobado ∨ Loan.estado loan = Aplazado →
   fails_with ValidationError (fst (delayLoan loanId None db)) ∧
   snd (delayLoan loanId None db) = db)
  ∧
  (Loan.estado loan ≠ Aprobado → Loan.estado loan ≠ Aplazado →
   ∀ nuevaFecha,
     fails_with InvalidState (fst (delayLoan loanId nuevaFecha db)) ∧
     snd (delayLoan loanId nuevaFecha db) = db)
  ∧
  (Loan.estado loan = Aprobado →
   ∀ fecha, ∃ loan',
     let db' := snd (delayLoan loanId (Some fecha) db) in
     fst (delayLoan loanId (Some fecha) db) = Normal loan' ∧
     loans db' !! loanId = Some loan' ∧
     Loan.estado loan' = Aplazado ∧
     Loan.fecha_estimada loan' = Some fecha ∧
     items db' = items db).
Proof.
  intros Hloan. split; [| split].
  - intros He. rewrite (delayLoan_no_date db loanId loan Hloan).
    + split; [by eexists | done].
    + unfold en_prestamo. by destruct He as [-> | ->].
  - intros H1 H2 nuevaFecha.
    rewrite (delayLoan_invalid db loanId loan Hloan).
    + split; [by eexists | done].
    + unfold en_prestamo. by rewrite !bool_decide_false.
  - intros He fecha. rewrite (delayLoan_ok db loanId loan Hloan).
    + eexists. cbn. rewrite lookup_insert_eq. repeat split.
    + unfold en_prestamo. by rewrite He.
Qed.

Lemma delayLoan_spec_witness :
  loans (snd (approveLoan 10 1 (Some 20) escenario)) !! 1%N
    = Some (approved 10 20 solicitud) ∧
  fails_with ValidationError
    (fst (delayLoan 1 None (snd (approveLoan 10 1 (Some 20) escenario)))) ∧
  ∃ loan',
    fst (delayLoan 1 (Some 25) (snd (approveLoan 10 1 (Some 20) escenario)))
      = Normal loan' ∧
    Loan.estado loan' = Aplazado ∧ Loan.fecha_estimada loan' = Some 25.
Proof.
  split; [reflexivity |].
  destruct (delayLoan_spec (snd (approveLoan 10 1 (Some 20) escenario)) 1
              (approved 10 20 solicitud) eq_refl) as (H1 & _ & H3).
  split; [exact (proj1 (H1 (or_introl eq_refl))) |].
  destruct (H3 eq_refl 25) as (loan' & Ha & _ & Hb & Hc & _).
  exists loan'. repeat split; assumption.
Defined.

(** ** deleteLoan *)

(** C8. [deleteLoan] removes the record of a stored loan whatever its state
    and returns it; it fails, with [NotFound], exactly when no loan has the
    given id. It neither reads nor writes the items: they are as they were,
    so the units of a deleted [Aprobado] or [Aplazado] loan are not given
    back, and what it returns and does to the loans is the same whatever the
    items are. *)
Theorem deleteLoan_spec (db : DB) (loanId : Id) :
  (∀ loan, loans db !! loanId = Some loan →
     fst (deleteLoan loanId db) = Normal loan ∧
     loans (snd (deleteLoan loanId db)) = delete loanId (loans db) ∧
     loans (snd (deleteLoan loanId db)) !! loanId = None)
  ∧
  (loans db !! loanId = None →
     fails_with NotFound (fst (deleteLoan loanId db)) ∧
     snd (deleteLoan loanId db) = db)
  ∧
  (∀ e, fst (deleteLoan loanId db) = Throw e → loans db !! loanId = None)
  ∧
  items (snd (deleteLoan loanId db)) = items db
  ∧
  (∀ items',
     fst (deleteLoan loanId (mkDB (loans db) items' (users db)))
       = fst (deleteLoan loanId db) ∧
     loans (snd (deleteLoan loanId (mkDB (loans db) items' (users db))))
       = loans (snd (deleteLoan loanId db)) ∧
     items (snd (deleteLoan loanId (mkDB (loans db) items' (users db))))
       = items').
Proof.
  unfold deleteLoan. unfold_db. cbn.
  destruct (loans db !! loanId) as [loan|] eqn:Hloan; cbn.
  - split; [| split; [done | split; [done | split; [done |]]]].
    + intros ? [= <-]. split; [done |]. split; [done |].
      apply lookup_delete_eq.
    + intros items'. done.
  - split; [done |]. split; [| split; [done | split; [done |]]].
    + intros _. split; [by eexists |].
      destruct db as [ls its us]. cbn in *. f_equal. by apply delete_id.
    + intros items'. done.
Qed.

Lemma deleteLoan_spec_witness :
  (Loan.estado <$> loans (snd (approveLoan 10 1 (Some 20) escenario)) !! 1%N)
    = Some Aprobado ∧
  loans (snd (deleteLoan 1 (snd (approveLoan 10 1 (Some 20) escenario))))
    !! 1%N = None ∧
  (Item.cantidad_disponible <$>
     items (snd (deleteLoan 1 (snd (approveLoan 10 1 (Some 20) escenario))))
       !! 1%N) = Some 1.
Proof.
  split; [reflexivity |].
  destruct (deleteLoan_spec (snd (approveLoan 10 1 (Some 20) escenario)) 1)
    as (H1 & _ & _ & H4 & _).
  destruct (H1 (approved 10 20 solicitud) eq_refl) as (_ & _ & H).
  split; [exact H |]. rewrite H4. reflexivity.
Defined.

(** ** listLoans and getLoanById *)

#[local] Instance createdAt_desc_total : Total createdAt_desc.
Proof. intros x y. unfold createdAt_desc. lia. Qed.

#[local] Instance createdAt_desc_trans : Transitive createdAt_desc.
Proof. intros x y z. unfold createdAt_desc. lia. Qed.

(** What [Loan.find(query).sort(...)] returns: the stored loans that match
    the query, each once, newest first. *)
Lemma Loan_find_sorted_spec (q : Query.t) (db : DB) :
  ∃ l, Loan_find_sorted q db = (Normal l, db) ∧
       (∀ id loan, (id, loan) ∈ l ↔
          loans db !! id = Some loan ∧ Query.matches q loan = true) ∧
       StronglySorted createdAt_desc l ∧
       NoDup l.
Proof.
  eexists. split; [reflexivity |]. split; [| split].
  - intros id loan. rewrite merge_sort_Permutation, list_elem_of_filter.
    rewrite elem_of_map_to_list. cbn. tauto.
  - apply StronglySorted_merge_sort; apply _.
  - rewrite merge_sort_Permutation. apply NoDup_filter, NoDup_map_to_list.
Qed.

Section GetLoanById.
Context (caller : Caller.t) (db : DB) (loanId : Id) (loan : Loan.t).
Hypothesis Hloan : loans db !! loanId = Some loan.

Lemma getLoanById_admin :
  Caller.rol caller = "Admin" →
  getLoanById caller loanId db = (Normal loan, db).
Proof.
  intros Hr. unfold getLoanById. unfold_db. rewrite Hloan.
  by rewrite bool_decide_true.
Qed.

Lemma getLoanById_dangling :
  Caller.rol caller ≠ "Admin" →
  users db !! Loan.usuario loan = None →
  getLoanById caller loanId db = (Throw TypeError, db).
Proof.
  intros Hr Hu. unfold getLoanById. unfold_db. rewrite Hloan.
  rewrite bool_decide_false by done. cbn. by rewrite Hu.
Qed.

Lemma getLoanById_owner :
  is_Some (users db !! Loan.usuario loan) →
  Loan.usuario loan = Caller._id caller →
  getLoanById caller loanId db = (Normal loan, db).
Proof.
  intros [u Hu] Ho. unfold getLoanById. unfold_db. rewrite Hloan.
  destruct (bool_decide (Caller.rol caller = "Admin")); cbn; [done |].
  rewrite Hu. by rewrite bool_decide_true.
Qed.

Lemma getLoanById_other :
  Caller.rol caller ≠ "Admin" →
  is_Some (users db !! Loan.usuario loan) →
  Loan.usuario loan ≠ Caller._id caller →
  getLoanById caller loanId db = (Throw err_no_autorizado, db).
Proof.
  intros Hr [u Hu] Ho. unfold getLoanById. unfold_db. rewrite Hloan.
  rewrite bool_decide_false by done. cbn. rewrite Hu.
  by rewrite bool_decide_false.
Qed.
End GetLoanById.

(** C7. For a caller whose [rol] is not [Admin], [listLoans] returns the
    stored loans whose [usuario] is the caller's id, those in the given
    state when a state filter is given, ordered by [createdAt] descending.
    [getLoanById] on a stored loan whose borrower is a stored user fails
    with [Forbidden] for a caller who is neither [Admin] nor that borrower;
    an [Admin] and the borrower receive the loan. *)
Theorem read_access (caller : Caller.t) (db : DB) :
  (Caller.rol caller ≠ "Admin" →
   ∀ filtros_estado, ∃ l,
     listLoans caller filtros_estado db = (Normal l, db) ∧
     (∀ id loan, (id, loan) ∈ l ↔
        loans db !! id = Some loan ∧
        Loan.usuario loan = Caller._id caller ∧
        (∀ e, filtros_estado = Some e → Loan.estado loan = e)) ∧
     StronglySorted createdAt_desc l ∧
     NoDup l)
  ∧
  (∀ loanId loan,
     loans db !! loanId = Some loan →
     (Caller.rol caller ≠ "Admin" →
      is_Some (users db !! Loan.usuario loan) →
      Loan.usuario loan ≠ Caller._id caller →
      fails_with Forbidden (fst (getLoanById caller loanId db)) ∧
      snd (getLoanById caller loanId db) = db)
     ∧
     (Caller.rol caller = "Admin" →
      getLoanById caller loanId db = (Normal loan, db))
     ∧
     (is_Some (users db !! Loan.usuario loan) →
      Loan.usuario loan = Caller._id caller →
      getLoanById caller loanId db = (Normal loan, db))).
Proof.
  split.
  - intros Hr filtros_estado. unfold listLoans.
    rewrite bool_decide_false by done. cbn.
    destruct (Loan_find_sorted_spec
                (match filtros_estado with
                 | Some e => Query.mk (Some (Caller._id caller)) (Some e)
                 | None => Query.mk (Some (Caller._id caller)) None
                 end) db) as (l & Hl & Hin & Hs & Hn).
    exists l. split; [exact Hl |]. split; [| done].
    intros id loan. rewrite Hin. unfold Query.matches.
    destruct filtros_estado as [e|]; cbn;
      rewrite ?andb_true_iff, ?bool_decide_eq_true.
    + split.
      * intros (? & ? & ?). split; [done |]. split; [done |]. congruence.
      * intros (? & ? & He). eauto.
    + split.
      * intros (? & ? & _). split; [done |]. split; [done |]. done.
      * intros (? & ? & _). eauto.
  - intros loanId loan Hloan. split; [| split].
    + intros Hr Hu Ho. erewrite getLoanById_other by eauto.
      split; [by eexists | done].
    + intros Hr. by erewrite getLoanById_admin.
    + intros Hu Ho. by erewrite getLoanById_owner.
Qed.

Lemma read_access_witness :
  Caller.rol (Caller.mk "Comun" 9) ≠ "Admin" ∧
  listLoans (Caller.mk "Comun" 9) None escenario = (Normal [], escenario) ∧
  fails_with Forbidden (fst (getLoanById (Caller.mk "Comun" 9) 1 escenario)) ∧
  getLoanById (Caller.mk "Comun" 7) 1 escenario = (Normal solicitud, escenario).
Proof.
  assert (Hr : Caller.rol (Caller.mk "Comun" 9) ≠ "Admin") by discriminate.
  destruct (read_access (Caller.mk "Comun" 9) escenario) as [H1 H2].
  split; [exact Hr |]. split; [reflexivity |]. split.
  - refine (proj1 (proj1 (H2 1%N solicitud eq_refl) Hr _ _)).
    + eexists. reflexivity.
    + discriminate.
  - refine (proj2 (proj2 (proj2 (read_access (Caller.mk "Comun" 7) escenario)
                             1%N solicitud eq_refl)) _ eq_refl).
    eexists. reflexivity.
Defined.

(** ** sendEmail *)

Lemma sends_attempts_trace (req : Request.t) (n : nat) :
  sends (attempts_trace req n) = n.
Proof.
  unfold sends. induction n as [| [| n] IH]; [done | done |].
  change (attempts_trace req (S (S n)))
    with (Send req :: Sleep 2000 :: attempts_trace req (S n)).
  rewrite filter_cons_True by done. rewrite filter_cons_False by (cbn; tauto).
  cbn [length]. by rewrite IH.
Qed.

Section SendEmail.
Context (toLowerCase : string → string)
        (JSON_stringify : ApiError.t → string)
        (env : Env.t).

#[local] Abbreviation send_email := (sendEmail toLowerCase JSON_stringify env).
#[local] Abbreviation try_send := (try_send toLowerCase JSON_stringify env).
#[local] Abbreviation request := (request toLowerCase env).

(** An attempt that cannot be made: nothing is sent, and the error is not
    one that is retried. *)
Lemma try_send_refused (resend : Service) (msg : Message.t) :
  email_invalido (Message.to msg)
    || negb (truthy (Env.RESEND_API_KEY env)) = true →
  ∃ e, try_send resend msg = (Rejected e, []) ∧ retryable e = false.
Proof.
  intros H. unfold try_send.
  destruct (email_invalido (Message.to msg)); [by eexists |].
  cbn in H. rewrite H. by eexists.
Qed.

(** An attempt that is made sends one request and succeeds exactly on an
    answer that is [delivered]; when it fails, the error is one that is
    retried exactly on an answer that is [transient]. *)
Lemma try_send_made (resend : Service) (msg : Message.t) :
  email_invalido (Message.to msg) = false →
  truthy (Env.RESEND_API_KEY env) = true →
  let req := request (String_of (Message.to msg)) msg in
  (∃ v, try_send resend msg = (Fulfilled v, [Send req]) ∧
        SendResult.success v = true ∧
        delivered (resend req 0%nat) = true ∧
        transient (resend req 0%nat) = false)
  ∨
  (∃ e, try_send resend msg = (Rejected e, [Send req]) ∧
        delivered (resend req 0%nat) = false ∧
        retryable e = transient (resend req 0%nat)).
Proof.
  intros Hv Hk req. unfold try_send. rewrite Hv, Hk. cbn. fold req.
  destruct (resend req 0%nat) as [[[id|] [err|]] | e]; cbn;
    first [ by left; eexists | by right; eexists ].
Qed.

Lemma sendEmail_refused (resend : Service) (msg : Message.t) (retries : nat) :
  email_invalido (Message.to msg)
    || negb (truthy (Env.RESEND_API_KEY env)) = true →
  ∃ v, send_email resend msg retries = (Fulfilled v, []) ∧
       SendResult.success v = false.
Proof.
  intros H. destruct (try_send_refused resend msg H) as (e & He & Hr).
  destruct retries; cbn; rewrite He, ?Hr; by eexists.
Qed.

Lemma sendEmail_made (retries : nat) :
  ∀ (resend : Service) (msg : Message.t),
  email_invalido (Message.to msg) = false →
  truthy (Env.RESEND_API_KEY env) = true →
  let req := request (String_of (Message.to msg)) msg in
  ∃ v m,
    send_email resend msg retries = (Fulfilled v, attempts_trace req (S m)) ∧
    (m ≤ retries)%nat ∧
    (∀ k, (k < m)%nat → transient (resend req k) = true) ∧
    ((m < retries)%nat → transient (resend req m) = false) ∧
    SendResult.success v = delivered (resend req m).
Proof.
  induction retries as [| retries IH]; intros resend msg Hv Hk req.
  - destruct (try_send_made resend msg Hv Hk)
      as [(v & Ht & Hs & Hd & _) | (e & Ht & Hd & _)];
      fold req in Ht, Hd; cbn; rewrite Ht.
    + exists v, 0%nat. repeat split; [lia | lia | lia | congruence].
    + eexists _, 0%nat. repeat split; [lia | lia | lia | by rewrite Hd].
  - destruct (try_send_made resend msg Hv Hk)
      as [(v & Ht & Hs & Hd & Hn) | (e & Ht & Hd & Hr)];
      fold req in Ht, Hd; cbn [sendEmail]; rewrite Ht.
    + exists v, 0%nat. repeat split; [lia | lia | done | congruence].
    + fold req in Hr. destruct (retryable e) eqn:He.
      * destruct (IH (λ r n, resend r (S n)) msg Hv Hk)
          as (v & m & Hrec & Hle & Hbefore & Hstop & Hsucc).
        fold req in Hrec, Hbefore, Hstop, Hsucc. rewrite Hrec.
        exists v, (S m). repeat split; [lia | | | done].
        -- intros [| k] Hlt; [done | apply Hbefore; lia].
        -- intros Hlt. apply Hstop. lia.
      * eexists _, 0%nat. repeat split; [lia | lia | done | by rewrite Hd].
Qed.

(** C9. [sendEmail] settles with a result object for every input and never
    rejects. It sends at most 3 requests. When the address is invalid or
    the API key is missing it sends nothing and reports failure. Otherwise
    it makes [m + 1] attempts with [m <= 2], each but the first after a
    wait of 2000 ms; every attempt followed by another one failed with
    [statusCode] 429 or [code] [ETIMEDOUT]; it stops before the third
    attempt only when the last one did not fail in that way; and it
    reports success exactly when the last attempt was delivered, so it
    reports failure once the retries are used up or on any other error. *)
Theorem sendEmail_policy (resend : Service) (msg : Message.t) :
  ∃ v tr,
    sendEmail_default toLowerCase JSON_stringify env resend msg
      = (Fulfilled v, tr) ∧
    (sends tr ≤ 3)%nat ∧
    if email_invalido (Message.to msg)
       || negb (truthy (Env.RESEND_API_KEY env))
    then tr = [] ∧ SendResult.success v = false
    else
      let req := request (String_of (Message.to msg)) msg in
      ∃ m,
        (m ≤ 2)%nat ∧
        tr = attempts_trace req (S m) ∧
        (∀ k, (k < m)%nat → transient (resend req k) = true) ∧
        ((m < 2)%nat → transient (resend req m) = false) ∧
        SendResult.success v = delivered (resend req m).
Proof.
  unfold sendEmail_default.
  destruct (email_invalido (Message.to msg)
            || negb (truthy (Env.RESEND_API_KEY env))) eqn:Hrefused.
  - destruct (sendEmail_refused resend msg 2 Hrefused) as (v & Hs & Hf).
    exists v, []. rewrite Hs. repeat split; [cbn; lia | done].
  - apply orb_false_iff in Hrefused as [Hv Hk].
    apply negb_false_iff in Hk.
    destruct (sendEmail_made 2 resend msg Hv Hk)
      as (v & m & Hs & Hle & Hbefore & Hstop & Hsucc).
    eexists v, _. rewrite Hs. split; [done |]. split.
    + rewrite sends_attempts_trace. lia.
    + exists m. repeat split; done.
Qed.
End SendEmail.

(** Three rate-limit answers in a row: three requests 2000 ms apart, then
    the failure object. *)
Lemma sendEmail_policy_witness :
  ∃ v req,
    sendEmail_default id (λ _, "{}") entorno siempre_429 aviso
      = (Fulfilled v, [Send req; Sleep 2000; Send req; Sleep 2000; Send req]) ∧
    SendResult.success v = false.
Proof.
  destruct (sendEmail_policy id (λ _, "{}") entorno siempre_429 aviso)
    as (v & tr & Hs & _ & m & Hle & Htr & Hbefore & Hstop & Hsucc).
  exists v, (request id entorno "ana@example.org" aviso).
  assert (Hm : m = 2%nat).
  { destruct m as [| [| [| m]]]; [| | reflexivity | lia].
    - discriminate (Hstop ltac:(lia)).
    - discriminate (Hstop ltac:(lia)). }
  subst m. rewrite Hs, Htr. split; [reflexivity | exact Hsucc].
Defined.

(** One accepted request: no retry, no wait. *)
Example sendEmail_acepta :
  sendEmail_default id (λ _, "{}") entorno acepta aviso
  = (Fulfilled (SendResult.mk true (Some "msg-1") None),
     [Send (request id entorno "ana@example.org" aviso)]).
Proof. reflexivity. Qed.

(** An error reported in the response of the service is not retried, even
    when it is a rate limit: the [catch] block sees a new [Error] without
    [statusCode]. *)
Example sendEmail_api_error_429 :
  snd (sendEmail_default id (λ _, "{}") entorno
         (λ _ _, Fulfilled (Response.mk None
                   (Some (ApiError.mk (Some "Too many requests") (Some 429)))))
         aviso)
  = [Send (request id entorno "ana@example.org" aviso)].
Proof. reflexivity. Qed.

(** ** notifyAdminsNewLoan *)

Example includes_arroba : includes "@" "ana@example.org" = true.
Proof. reflexivity. Qed.

Example includes_sin_arroba : includes "@" "ana.example.org" = false.
Proof. reflexivity. Qed.

(** The test is on substrings, not on the domain of the address. *)
Example includes_test_com :
  includes "test.com" "contest.committee@sena.edu.co" = true.
Proof. reflexivity. Qed.

Lemma admin_valido_true (admin : User.t) (e : string) :
  admin_valido admin = true →
  User.email admin = Some e →
  includes "@" e = true ∧
  includes "demo.com" e = false ∧
  includes "test.com" e = false.
Proof.
  unfold admin_valido. intros H He. rewrite He in H. cbn [String_of] in H.
  destruct (truthy (Some e)), (includes "@" e), (includes "demo.com" e),
    (includes "test.com" e); done.
Qed.

Section Notify.
Context (toLowerCase : string → string)
        (JSON_stringify : ApiError.t → string)
        (env : Env.t).

#[local] Abbreviation notify :=
  (notifyAdminsNewLoan toLowerCase JSON_stringify env).

(** The calls of [sendEmail] are those for the valid administrators, in
    order. *)
Lemma notify_calls (resend : nat → Service) (html : string) (db : DB) :
  fst <$> snd (notify resend html db)
  = (λ p, User.email (snd p)) <$> validAdmins (User_find_admins db).
Proof.
  unfold notifyAdminsNewLoan.
  case_bool_decide as Ha.
  - apply nil_length_inv in Ha. by rewrite Ha.
  - case_bool_decide as Hv.
    + apply nil_length_inv in Hv. by rewrite Hv.
    + cbn [snd]. rewrite <- list_fmap_compose, fmap_imap.
      rewrite <- imap_const. by apply imap_ext.
Qed.

(** C10. [notifyAdminsNewLoan] leaves out every administrator whose
    address contains [demo.com] or [test.com], also when the address
    contains [@]: such an administrator is not among the valid ones and no
    call of [sendEmail] gets that address. When no administrator is left
    it reports failure and sends nothing. *)
Theorem notifyAdmins_skips_demo (resend : nat → Service) (html : string)
    (db : DB) :
  (∀ id admin e,
     (id, admin) ∈ User_find_admins db →
     User.email admin = Some e →
     includes "demo.com" e = true ∨ includes "test.com" e = true →
     ((id, admin) ∉ validAdmins (User_find_admins db)) ∧
     (∀ c, c ∈ snd (notify resend html db) → fst c ≠ Some e))
  ∧
  (validAdmins (User_find_admins db) = [] →
   NotifyResult.success (fst (notify resend html db)) = false ∧
   snd (notify resend html db) = [])
  ∧
  (includes "@" "admin@demo.com" = true ∧ admin_valido admin_demo = false).
Proof.
  split; [| split; [| done]].
  - intros id admin e Hin He Hdemo. split.
    + unfold validAdmins. rewrite list_elem_of_filter. cbn.
      intros [Hv _].
      destruct (admin_valido_true admin e Hv He) as (_ & H1 & H2).
      destruct Hdemo; congruence.
    + intros c Hc Hfst.
      assert (Hmem : fst c ∈ fst <$> snd (notify resend html db))
        by (apply list_elem_of_fmap; eauto).
      rewrite notify_calls in Hmem.
      apply list_elem_of_fmap in Hmem as ([id' admin'] & Hmail & Hin').
      unfold validAdmins in Hin'. apply list_elem_of_filter in Hin' as [Hv _].
      cbn in Hmail, Hv.
      destruct (admin_valido_true admin' e Hv) as (_ & H1 & H2);
        [congruence |].
      destruct Hdemo; congruence.
  - intros Hnil. unfold notifyAdminsNewLoan.
    case_bool_decide as Ha; [done |].
    rewrite Hnil. done.
Qed.
End Notify.

Lemma notifyAdmins_skips_demo_witness :
  let db := mkDB ∅ ∅ {[ 3%N := admin_demo ]} in
  (3%N, admin_demo) ∈ User_find_admins db ∧
  validAdmins (User_find_admins db) = [] ∧
  notifyAdminsNewLoan id (λ _, "{}") entorno (λ _, acepta) "<p>nuevo</p>" db
  = (NotifyResult.mk false (Some "No valid admin emails") None None, []).
Proof.
  cbn zeta.
  assert (Hin : (3%N, admin_demo)
                ∈ User_find_admins (mkDB ∅ ∅ {[ 3%N := admin_demo ]})).
  { unfold User_find_admins. apply list_elem_of_filter. split; [done |].
    apply elem_of_map_to_list. reflexivity. }
  split; [exact Hin |].
  destruct (notifyAdmins_skips_demo id (λ _, "{}") entorno (λ _, acepta)
              "<p>nuevo</p>" (mkDB ∅ ∅ {[ 3%N := admin_demo ]}))
    as (H1 & H2 & _).
  destruct (H1 3%N admin_demo "admin@demo.com" Hin eq_refl (or_introl eq_refl))
    as [Hout _].
  split; reflexivity.
Defined.

(** * Further properties of the loan service *)

(** ** rejectLoan *)

Section Reject.
Context (db : DB) (loanId : Id) (loan : Loan.t).
Hypothesis Hloan : loans db !! loanId = Some loan.

Lemma rejectLoan_invalid :
  Loan.estado loan ≠ Pendiente →
  rejectLoan loanId db = (Throw err_no_pendiente, db).
Proof.
  intros He. unfold rejectLoan. unfold_db. rewrite Hloan.
  by rewrite bool_decide_false.
Qed.

Lemma rejectLoan_ok :
  Loan.estado loan = Pendiente →
  rejectLoan loanId db =
    (Normal (Loan.set_estado Rechazado loan),
     mkDB (<[loanId := Loan.set_estado Rechazado loan]> (loans db))
          (items db) (users db)).
Proof.
  intros He. unfold rejectLoan. unfold_db. rewrite Hloan.
  by rewrite bool_decide_true.
Qed.
End Reject.

Lemma rejectLoan_not_found db loanId :
  loans db !! loanId = None →
  rejectLoan loanId db = (Throw err_prestamo_no_encontrado, db).
Proof. intros H. unfold rejectLoan. unfold_db. by rewrite H. Qed.

Lemma delayLoan_not_found db loanId nuevaFecha :
  loans db !! loanId = None →
  delayLoan loanId nuevaFecha db = (Throw err_prestamo_no_encontrado, db).
Proof. intros H. unfold delayLoan. unfold_db. by rewrite H. Qed.

(** ** The transitions as a step relation *)

Lemma en_prestamo_true (e : Estado) :
  en_prestamo e = true ↔ e = Aprobado ∨ e = Aplazado.
Proof. unfold en_prestamo. by rewrite orb_true_iff, !bool_decide_eq_true. Qed.

Lemma perform_effect (a : Action) (db : DB) :
  effect db a (fst (perform a db)) (snd (perform a db)).
Proof.
  destruct a as [now loanId fechaEstimada | loanId | now loanId
                 | loanId nuevaFecha]; cbn [perform].
  - destruct (loans db !! loanId) as [loan|] eqn:Hloan;
      [| rewrite approveLoan_not_found by done; constructor; auto].
    destruct (decide (Loan.estado loan = Pendiente)) as [He|He];
      [| erewrite approveLoan_not_pending by eauto; constructor; auto].
    destruct fechaEstimada as [fecha|];
      [| erewrite approveLoan_no_date by eauto; constructor; auto].
    destruct (items db !! Loan.item loan) as [it|] eqn:Hit;
      [| erewrite approveLoan_no_item by eauto; constructor; auto].
    destruct (decide (Loan.cantidad_prestamo loan ≤ Item.cantidad_disponible it));
      [| erewrite approveLoan_insufficient by (eauto; lia); constructor; auto].
    erewrite approveLoan_ok by eauto.
    by apply (effect_take db (DoApprove now loanId (Some fecha)) loan
                (approved now fecha loan) it).
  - destruct (loans db !! loanId) as [loan|] eqn:Hloan;
      [| rewrite rejectLoan_not_found by done; constructor; auto].
    destruct (decide (Loan.estado loan = Pendiente)) as [He|He];
      [| erewrite rejectLoan_invalid by eauto; constructor; auto].
    erewrite rejectLoan_ok by eauto.
    apply (effect_state db (DoReject loanId) loan
             (Loan.set_estado Rechazado loan)); try done.
    cbn. by rewrite He.
  - destruct (loans db !! loanId) as [loan|] eqn:Hloan;
      [| rewrite returnLoan_not_found by done; constructor; auto].
    destruct (en_prestamo (Loan.estado loan)) eqn:He;
      [| erewrite returnLoan_invalid by eauto; constructor; auto].
    destruct (items db !! Loan.item loan) as [it|] eqn:Hit;
      [| erewrite returnLoan_no_item by eauto; constructor; auto].
    erewrite returnLoan_ok by eauto.
    apply (effect_give db (DoReturn now loanId) loan (returned now loan) it);
      try done.
    split; [by apply en_prestamo_true | done].
  - destruct (loans db !! loanId) as [loan|] eqn:Hloan;
      [| rewrite delayLoan_not_found by done; constructor; auto].
    destruct (en_prestamo (Loan.estado loan)) eqn:He;
      [| erewrite delayLoan_invalid by eauto; constructor; auto].
    destruct nuevaFecha as [fecha|];
      [| erewrite delayLoan_no_date by eauto; constructor; auto].
    erewrite delayLoan_ok by eauto.
    apply (effect_state db (DoDelay loanId (Some fecha)) loan
             (Loan.set_fecha_estimada (Some fecha)
                (Loan.set_estado Aplazado loan))); try done.
    split; [by apply en_prestamo_true | done].
Qed.

(** X1. [rejectLoan] on a stored [Pendiente] loan stores it as [Rechazado]
    and changes nothing else: the other fields of the loan, the items and
    the users are as they were. On a stored loan in another state it fails
    with [InvalidState], on an unknown id with [NotFound], and then it
    writes nothing. *)
Theorem rejectLoan_spec (db : DB) (loanId : Id) :
  (∀ loan,
     loans db !! loanId = Some loan →
     Loan.estado loan = Pendiente →
     rejectLoan loanId db =
       (Normal (Loan.set_estado Rechazado loan),
        mkDB (<[loanId := Loan.set_estado Rechazado loan]> (loans db))
             (items db) (users db)))
  ∧
  (∀ loan,
     loans db !! loanId = Some loan →
     Loan.estado loan ≠ Pendiente →
     fails_with InvalidState (fst (rejectLoan loanId db)) ∧
     snd (rejectLoan loanId db) = db)
  ∧
  (loans db !! loanId = None →
   fails_with NotFound (fst (rejectLoan loanId db)) ∧
   snd (rejectLoan loanId db) = db).
Proof.
  split; [| split].
  - intros loan Hloan He. by apply rejectLoan_ok.
  - intros loan Hloan He. erewrite rejectLoan_invalid by eauto.
    split; [by eexists | done].
  - intros Hnone. rewrite rejectLoan_not_found by done.
    split; [by eexists | done].
Qed.

Lemma rejectLoan_spec_witness :
  loans escenario !! 1%N = Some solicitud ∧
  (Loan.estado <$> loans (snd (rejectLoan 1 escenario)) !! 1%N)
    = Some Rechazado ∧
  items (snd (rejectLoan 1 escenario)) = items escenario ∧
  fails_with NotFound (fst (rejectLoan 2 escenario)).
Proof.
  destruct (rejectLoan_spec escenario 1) as (H1 & _ & _).
  destruct (rejectLoan_spec escenario 2) as (_ & _ & H3).
  split; [reflexivity |].
  rewrite (H1 solicitud eq_refl eq_refl).
  split; [reflexivity |]. split; [reflexivity |].
  exact (proj1 (H3 eq_refl)).
Defined.

Lemma perform_throw (a : Action) (db : DB) (e : Error) :
  fst (perform a db) = Throw e →
  snd (perform a db) = db ∧
  ∃ message, e = HttpError message 400 ∨ e = HttpError message 404.
Proof.
  intros He. pose proof (perform_effect a db) as Heff.
  rewrite He in Heff. remember (snd (perform a db)) as db' eqn:Hdb'.
  clear He Hdb'. inversion Heff as [m s Hs | | |]; subst.
  split; [done |]. exists m. destruct Hs as [-> | ->]; auto.
Qed.

(** X2. A transition that throws has written nothing, and what it throws
    has status 400 or 404. *)
Theorem perform_throw_atomic (a : Action) (db : DB) (e : Error) :
  fst (perform a db) = Throw e →
  snd (perform a db) = db ∧
  ∃ message, e = HttpError message 400 ∨ e = HttpError message 404.
Proof. apply perform_throw. Qed.

Lemma perform_throw_atomic_witness :
  fst (perform (DoDelay 1 (Some 20)) escenario) = Throw err_no_aplazar ∧
  snd (perform (DoDelay 1 (Some 20)) escenario) = escenario.
Proof.
  split; [reflexivity |].
  exact (proj1 (perform_throw_atomic (DoDelay 1 (Some 20)) escenario
                  err_no_aplazar eq_refl)).
Defined.

Lemma perform_success (a : Action) (db : DB) (loan' : Loan.t) :
  fst (perform a db) = Normal loan' →
  ∃ loan,
    loans db !! target a = Some loan ∧
    loans (snd (perform a db)) !! target a = Some loan' ∧
    moves a (Loan.estado loan) (Loan.estado loan') ∧
    Loan.estado loan' ≠ Pendiente ∧
    loan_fixed loan' = loan_fixed loan.
Proof.
  intros He. pose proof (perform_effect a db) as Heff.
  rewrite He in Heff.
  assert (Hnp : ∀ from, moves a from (Loan.estado loan') →
                        Loan.estado loan' ≠ Pendiente).
  { intros from Hm. destruct a; cbn in Hm; destruct Hm as [_ ->]; done. }
  remember (snd (perform a db)) as db' eqn:Hdb'. clear He Hdb'.
  inversion Heff as [| loan l' Hl Hm Hf Hp Hn Hdb
                     | loan l' it Hl Hm Hf H1 H2 Hit Hle Hn Hdb
                     | loan l' it Hl Hm Hf H1 H2 Hit Hn Hdb];
    subst l' db'; exists loan; cbn; rewrite lookup_insert_eq; eauto 10.
Qed.

(** X3. A transition that succeeds acted on a stored loan, in a state its
    function accepts, and returns the loan as it is now stored: approval and
    rejection start from [Pendiente], return and deferral from [Aprobado] or
    [Aplazado]. No transition stores a loan as [Pendiente], and the borrower,
    item, classroom, quantity and creation date of the loan are kept. *)
Theorem perform_success_moves (a : Action) (db : DB) (loan' : Loan.t) :
  fst (perform a db) = Normal loan' →
  ∃ loan,
    loans db !! target a = Some loan ∧
    loans (snd (perform a db)) !! target a = Some loan' ∧
    moves a (Loan.estado loan) (Loan.estado loan') ∧
    Loan.estado loan' ≠ Pendiente ∧
    loan_fixed loan' = loan_fixed loan.
Proof. apply perform_success. Qed.

Lemma perform_success_moves_witness :
  fst (perform (DoApprove 10 1 (Some 20)) escenario)
    = Normal (approved 10 20 solicitud) ∧
  ∃ loan,
    loans escenario !! 1%N = Some loan ∧
    moves (DoApprove 10 1 (Some 20)) (Loan.estado loan)
      (Loan.estado (approved 10 20 solicitud)).
Proof.
  split; [reflexivity |].
  destruct (perform_success_moves (DoApprove 10 1 (Some 20)) escenario
              (approved 10 20 solicitud) eq_refl)
    as (loan & H1 & _ & H3 & _).
  exists loan. split; [exact H1 | exact H3].
Defined.

(** A transition leaves every loan but its target as it is. *)
Lemma perform_other_loans (a : Action) (db : DB) (id : Id) :
  id ≠ target a →
  loans (snd (perform a db)) !! id = loans db !! id.
Proof.
  intros Hne. destruct (perform_effect a db); cbn;
    rewrite ?lookup_insert_ne by done; done.
Qed.

(** X4. A loan in state [Rechazado] or [Devuelto] is final: every
    transition aimed at it fails and writes nothing, and after any sequence
    of transitions the stored loan is the same. *)
Theorem terminal_states_final (db : DB) (loanId : Id) (loan : Loan.t) :
  loans db !! loanId = Some loan →
  Loan.estado loan = Rechazado ∨ Loan.estado loan = Devuelto →
  (∀ a, target a = loanId →
     (∃ e, fst (perform a db) = Throw e) ∧ snd (perform a db) = db)
  ∧
  (∀ actions, loans (perform_all actions db) !! loanId = Some loan).
Proof.
  intros Hloan Hfinal.
  assert (Hone : ∀ db0 a, loans db0 !! loanId = Some loan →
                   target a = loanId →
                   (∃ e, fst (perform a db0) = Throw e) ∧
                   snd (perform a db0) = db0).
  { intros db0 a Hl Ht.
    destruct (fst (perform a db0)) as [loan'|e] eqn:Hfst.
    - destruct (perform_success a db0 loan' Hfst)
        as (l & Hl' & _ & Hm & _).
      rewrite Ht, Hl in Hl'. injection Hl' as <-.
      destruct a; cbn in Hm; destruct Hm as [Hfrom _];
        destruct Hfinal as [Hf | Hf]; rewrite Hf in Hfrom;
        try discriminate; destruct Hfrom; discriminate.
    - split; [by eexists |]. by destruct (perform_throw a db0 e Hfst). }
  split; [intros a; by apply Hone |].
  intros actions. revert db Hloan. unfold perform_all.
  induction actions as [| a actions IH]; intros db Hloan; cbn; [done |].
  apply IH. destruct (decide (target a = loanId)) as [Ht | Ht].
  - by rewrite (proj2 (Hone db a Hloan Ht)).
  - by rewrite perform_other_loans.
Qed.

Lemma terminal_states_final_witness :
  loans (snd (rejectLoan 1 escenario)) !! 1%N
    = Some (Loan.set_estado Rechazado solicitud) ∧
  loans (perform_all [DoApprove 10 1 (Some 20); DoReturn 30 1;
                      DoDelay 1 (Some 40); DoReject 1]
           (snd (rejectLoan 1 escenario))) !! 1%N
    = Some (Loan.set_estado Rechazado solicitud).
Proof.
  split; [reflexivity |].
  exact (proj2 (terminal_states_final (snd (rejectLoan 1 escenario)) 1
                  (Loan.set_estado Rechazado solicitud) eq_refl
                  (or_introl eq_refl)) _).
Defined.

(** ** What the transitions leave alone *)

Lemma perform_fixed (a : Action) (db : DB) :
  users (snd (perform a db)) = users db ∧
  (∀ id, loan_fixed <$> loans (snd (perform a db)) !! id
         = loan_fixed <$> loans db !! id) ∧
  (∀ i, item_fixed <$> items (snd (perform a db)) !! i
        = item_fixed <$> items db !! i).
Proof.
  destruct (perform_effect a db)
    as [| loan loan' Hl _ Hf _
        | loan loan' it Hl _ Hf _ _ Hit _
        | loan loan' it Hl _ Hf _ _ Hit]; cbn; (split; [done |]); split;
    intros k; rewrite ?lookup_insert; try case_decide; subst;
    rewrite ?Hl, ?Hit; cbn; by rewrite ?Hf.
Qed.

(** X5. After any sequence of transitions the users are the same, the same
    loans and the same items are stored (none is created, none removed),
    every loan has the borrower, item, classroom, quantity and creation date
    it had, and every item its name and total stock. *)
Theorem perform_all_fixed (actions : list Action) (db : DB) :
  users (perform_all actions db) = users db ∧
  (∀ id, loan_fixed <$> loans (perform_all actions db) !! id
         = loan_fixed <$> loans db !! id) ∧
  (∀ i, item_fixed <$> items (perform_all actions db) !! i
        = item_fixed <$> items db !! i).
Proof.
  revert db. unfold perform_all.
  induction actions as [| a actions IH]; intros db; cbn; [done |].
  destruct (IH (snd (perform a db))) as (Hu & Hl & Hi).
  destruct (perform_fixed a db) as (Hu1 & Hl1 & Hi1).
  split; [congruence |]. split.
  - intros id. by rewrite Hl, Hl1.
  - intros i. by rewrite Hi, Hi1.
Qed.

(** X6. A transition writes at most the loan it is aimed at and the item of
    that loan: every other loan and every other item is stored as before. *)
Theorem perform_local (a : Action) (db : DB) :
  (∀ id, id ≠ target a →
     loans (snd (perform a db)) !! id = loans db !! id)
  ∧
  (∀ i, (∀ loan, loans db !! target a = Some loan → Loan.item loan ≠ i) →
     items (snd (perform a db)) !! i = items db !! i).
Proof.
  split; [intros id; apply perform_other_loans |].
  intros i Hi.
  destruct (perform_effect a db)
    as [| | loan loan' it Hl | loan loan' it Hl]; cbn; try done;
    rewrite lookup_insert_ne; eauto.
Qed.

Lemma perform_local_witness :
  loans (snd (perform (DoApprove 10 1 (Some 20)) escenario)) !! 2%N
    = loans escenario !! 2%N ∧
  items (snd (perform (DoReject 1) escenario)) !! 1%N
    = items escenario !! 1%N.
Proof.
  split.
  - apply (proj1 (perform_local (DoApprove 10 1 (Some 20)) escenario)).
    discriminate.
  - reflexivity.
Defined.

(** ** Approval and return, composed *)

(** X7. Approving a [Pendiente] loan and then returning it puts the items
    back exactly as they were, provided the available units of the item
    were not above its total stock to begin with; the loan ends
    [Devuelto]. *)
Theorem approve_return_round_trip (db : DB) (now now' fecha : Fecha)
    (loanId : Id) (loan : Loan.t) (it : Item.t) :
  loans db !! loanId = Some loan →
  Loan.estado loan = Pendiente →
  items db !! Loan.item loan = Some it →
  Loan.cantidad_prestamo loan ≤ Item.cantidad_disponible it →
  Item.cantidad_disponible it ≤ Item.cantidad_total_stock it →
  let db1 := snd (approveLoan now loanId (Some fecha) db) in
  let db2 := snd (returnLoan now' loanId db1) in
  items db2 = items db ∧
  loans db2 !! loanId = Some (returned now' (approved now fecha loan)).
Proof.
  intros Hloan He Hit Hle Hcap. cbn zeta.
  rewrite (approveLoan_ok db now loanId loan Hloan fecha it He Hit Hle).
  cbn [snd].
  erewrite returnLoan_ok; cycle 1.
  - cbn. apply lookup_insert_eq.
  - reflexivity.
  - cbn. apply lookup_insert_eq.
  - cbn. rewrite lookup_insert_eq. split; [| done].
    rewrite insert_insert_eq. unfold restored. cbn.
    rewrite Z.min_l by lia.
    replace (Item.cantidad_disponible it - Loan.cantidad_prestamo loan
             + Loan.cantidad_prestamo loan)
      with (Item.cantidad_disponible it) by lia.
    unfold Item.set_cantidad_disponible. cbn.
    apply insert_id. rewrite Hit. by destruct it.
Qed.

Lemma approve_return_round_trip_witness :
  loans escenario !! 1%N = Some solicitud ∧
  items (snd (returnLoan 30 1 (snd (approveLoan 10 1 (Some 20) escenario))))
    = items escenario.
Proof.
  split; [reflexivity |].
  exact (proj1 (approve_return_round_trip escenario 10 30 20 1 solicitud
                  proyector eq_refl eq_refl eq_refl
                  ltac:(cbn; lia) ltac:(cbn; lia))).
Defined.

(** X8. An approval and a return cannot be repeated: once [approveLoan] has
    succeeded on a loan, a second approval of it fails with [InvalidState],
    and once [returnLoan] has succeeded, a second return fails with
    [InvalidState]; the second call writes nothing, so the units are taken
    once and given back once. *)
Theorem approve_return_once (db : DB) (loanId : Id) (loan' : Loan.t) :
  (∀ now fechaEstimada now2 fechaEstimada2,
     fst (approveLoan now loanId fechaEstimada db) = Normal loan' →
     let db1 := snd (approveLoan now loanId fechaEstimada db) in
     approveLoan now2 loanId fechaEstimada2 db1 = (Throw err_no_pendiente, db1))
  ∧
  (∀ now now2,
     fst (returnLoan now loanId db) = Normal loan' →
     let db1 := snd (returnLoan now loanId db) in
     returnLoan now2 loanId db1 = (Throw err_no_devolver, db1)).
Proof.
  split.
  - intros now f now2 f2 Hok db1.
    destruct (perform_success (DoApprove now loanId f) db loan' Hok)
      as (loan & _ & Hl1 & [_ Hm] & _).
    eapply approveLoan_not_pending; [exact Hl1 |]. by rewrite Hm.
  - intros now now2 Hok db1.
    destruct (perform_success (DoReturn now loanId) db loan' Hok)
      as (loan & _ & Hl1 & [_ Hm] & _).
    eapply returnLoan_invalid; [exact Hl1 |]. by rewrite Hm.
Qed.

Lemma approve_return_once_witness :
  fst (approveLoan 10 1 (Some 20) escenario) = Normal (approved 10 20 solicitud)
  ∧
  fst (approveLoan 11 1 (Some 21) (snd (approveLoan 10 1 (Some 20) escenario)))
    = Throw err_no_pendiente.
Proof.
  split; [reflexivity |].
  pose proof (proj1 (approve_return_once escenario 1 (approved 10 20 solicitud))
                10 (Some 20) 11 (Some 21) eq_refl) as H.
  cbn zeta in H. by rewrite H.
Defined.

(** ** Conservation of the units of an item *)

Lemma held_comm (i : Id) (l1 l2 : Loan.t) (y : Z) :
  held i l1 + (held i l2 + y) = held i l2 + (held i l1 + y).
Proof. lia. Qed.

Lemma outstanding_empty (i : Id) : outstanding i ∅ = 0.
Proof. apply map_fold_empty. Qed.

Lemma outstanding_insert_fresh (i k : Id) (l : Loan.t) (ls : gmap N Loan.t) :
  ls !! k = None →
  outstanding i (<[k := l]> ls) = held i l + outstanding i ls.
Proof.
  intros Hk. unfold outstanding.
  rewrite map_fold_insert_L; [done | | done]. intros. apply held_comm.
Qed.

Lemma outstanding_delete (i k : Id) (l : Loan.t) (ls : gmap N Loan.t) :
  ls !! k = Some l →
  outstanding i (delete k ls) = outstanding i ls - held i l.
Proof.
  intros Hk. unfold outstanding.
  rewrite (map_fold_delete_L _ _ k l ls); [lia | | done].
  intros. apply held_comm.
Qed.

Lemma outstanding_insert (i k : Id) (l l' : Loan.t) (ls : gmap N Loan.t) :
  ls !! k = Some l →
  outstanding i (<[k := l']> ls) = outstanding i ls - held i l + held i l'.
Proof.
  intros Hk. rewrite <- insert_delete_eq.
  rewrite outstanding_insert_fresh by apply lookup_delete_eq.
  rewrite (outstanding_delete i k l) by done. lia.
Qed.

Lemma held_nonneg (i : Id) (l : Loan.t) :
  0 ≤ Loan.cantidad_prestamo l → 0 ≤ held i l.
Proof. unfold held. case_match; lia. Qed.

Lemma outstanding_nonneg (i : Id) (ls : gmap N Loan.t) :
  (∀ k l, ls !! k = Some l → 0 ≤ Loan.cantidad_prestamo l) →
  0 ≤ outstanding i ls.
Proof.
  induction ls as [| k l ls Hk IH] using map_ind; intros Hv.
  - by rewrite outstanding_empty.
  - rewrite outstanding_insert_fresh by done.
    assert (0 ≤ held i l)
      by (apply held_nonneg, (Hv k); apply lookup_insert_eq).
    assert (0 ≤ outstanding i ls); [| lia].
    apply IH. intros k' l' Hl'. apply (Hv k').
    rewrite lookup_insert_ne; [done |]. intros ->. congruence.
Qed.

Lemma held_fixed (i : Id) (l l' : Loan.t) :
  loan_fixed l' = loan_fixed l →
  en_prestamo (Loan.estado l') = en_prestamo (Loan.estado l) →
  held i l' = held i l.
Proof.
  unfold loan_fixed, held. intros [= _ Hitem _ Hq _] He.
  by rewrite Hitem, He, Hq.
Qed.

Lemma perform_cantidades_validas (a : Action) (db : DB) :
  cantidades_validas db → cantidades_validas (snd (perform a db)).
Proof.
  intros Hv id l' Hl'.
  destruct (perform_fixed a db) as (_ & Hf & _). specialize (Hf id).
  rewrite Hl' in Hf. cbn in Hf.
  destruct (loans db !! id) as [l|] eqn:Hl; [| done].
  cbn in Hf. injection Hf as _ _ _ Hq _. rewrite Hq. eauto.
Qed.

(** One transition keeps the sum of the available units of an item and the
    units of it that loans hold, as long as the sum is within the total. *)
Lemma perform_conserves (a : Action) (db : DB) (i : Id) (it : Item.t) :
  cantidades_validas db →
  items db !! i = Some it →
  Item.cantidad_disponible it + outstanding i (loans db)
    ≤ Item.cantidad_total_stock it →
  ∃ it',
    items (snd (perform a db)) !! i = Some it' ∧
    Item.cantidad_total_stock it' = Item.cantidad_total_stock it ∧
    Item.cantidad_disponible it' + outstanding i (loans (snd (perform a db)))
    = Item.cantidad_disponible it + outstanding i (loans db).
Proof.
  intros Hv Hit Hsum.
  destruct (perform_effect a db)
    as [| loan loan' Hl _ Hf Hp
        | loan loan' it0 Hl _ Hf He He' Hit0 Hle
        | loan loan' it0 Hl _ Hf He He' Hit0]; cbn.
  - eauto.
  - exists it. rewrite (outstanding_insert i _ loan) by done.
    rewrite (held_fixed i loan loan') by done. repeat split; [done | lia].
  - rewrite (outstanding_insert i _ loan) by done.
    assert (Hfrom : held i loan = 0)
      by (unfold held; rewrite He; cbn; by rewrite andb_false_r).
    assert (Hto : held i loan'
                  = if bool_decide (Loan.item loan = i)
                    then Loan.cantidad_prestamo loan else 0).
    { unfold held. injection Hf as _ -> _ -> _. rewrite He'. cbn.
      by rewrite andb_true_r. }
    rewrite Hfrom, Hto, lookup_insert. case_decide as Hi.
    + subst i. rewrite bool_decide_true by done.
      rewrite Hit in Hit0. injection Hit0 as <-.
      eexists. split; [done |]. cbn. split; [done | lia].
    + rewrite bool_decide_false by done. exists it.
      repeat split; [done | lia].
  - rewrite (outstanding_insert i _ loan) by done.
    assert (Hfrom : held i loan
                    = if bool_decide (Loan.item loan = i)
                      then Loan.cantidad_prestamo loan else 0)
      by (unfold held; rewrite He; by rewrite andb_true_r).
    assert (Hto : held i loan' = 0)
      by (unfold held; rewrite He'; cbn; by rewrite andb_false_r).
    rewrite Hfrom, Hto, lookup_insert. case_decide as Hi.
    + subst i. rewrite bool_decide_true by done.
      rewrite Hit in Hit0. injection Hit0 as <-.
      eexists. split; [done |]. cbn. split; [done |].
      assert (Hrest : 0 ≤ outstanding (Loan.item loan)
                            (delete (target a) (loans db))).
      { apply outstanding_nonneg. intros k l Hk.
        apply lookup_delete_Some in Hk as [_ Hk].
        specialize (Hv k l Hk). lia. }
      rewrite (outstanding_delete _ _ loan) in Hrest by done.
      rewrite Hfrom, bool_decide_true in Hrest by done.
      unfold restored. rewrite Z.min_l by lia. lia.
    + rewrite bool_decide_false by done. exists it.
      repeat split; [done | lia].
Qed.

Lemma perform_all_conserves (actions : list Action) (db : DB) (i : Id)
    (it : Item.t) :
  cantidades_validas db →
  items db !! i = Some it →
  Item.cantidad_disponible it + outstanding i (loans db)
    ≤ Item.cantidad_total_stock it →
  ∃ it',
    items (perform_all actions db) !! i = Some it' ∧
    Item.cantidad_disponible it' + outstanding i (loans (perform_all actions db))
    = Item.cantidad_disponible it + outstanding i (loans db).
Proof.
  revert db it. unfold perform_all.
  induction actions as [| a actions IH]; intros db it Hv Hit Hsum; cbn.
  - eauto.
  - destruct (perform_conserves a db i it Hv Hit Hsum) as (it1 & H1 & Ht & Hs).
    destruct (IH (snd (perform a db)) it1) as (it' & H' & Hs').
    + by apply perform_cantidades_validas.
    + done.
    + lia.
    + exists it'. split; [done | lia].
Qed.

(** X9. The units of an item are conserved. When the quantities of the
    stored loans are positive and the available units of an item plus the
    units of it held by [Aprobado] and [Aplazado] loans do not exceed its
    total stock, then after any sequence of approvals, rejections, returns
    and deferrals that sum is the same: each approval moves units from the
    counter to the loan, each return moves them back, and the cap of
    [returnLoan] never cuts anything off. *)
Theorem units_conserved (actions : list Action) (db : DB) (i : Id)
    (it : Item.t) :
  cantidades_validas db →
  items db !! i = Some it →
  Item.cantidad_disponible it + outstanding i (loans db)
    ≤ Item.cantidad_total_stock it →
  ∃ it',
    items (perform_all actions db) !! i = Some it' ∧
    Item.cantidad_disponible it' + outstanding i (loans (perform_all actions db))
    = Item.cantidad_disponible it + outstanding i (loans db).
Proof. apply perform_all_conserves. Qed.

Lemma units_conserved_witness :
  cantidades_validas escenario ∧
  items escenario !! 1%N = Some proyector ∧
  ∃ it',
    items (perform_all [DoApprove 10 1 (Some 20); DoDelay 1 (Some 25);
                        DoReturn 30 1] escenario) !! 1%N = Some it' ∧
    Item.cantidad_disponible it'
      + outstanding 1 (loans (perform_all
                                [DoApprove 10 1 (Some 20); DoDelay 1 (Some 25);
                                 DoReturn 30 1] escenario))
    = 3 + outstanding 1 (loans escenario).
Proof.
  split; [exact escenario_cantidades_validas |]. split; [reflexivity |].
  apply (units_conserved _ escenario 1%N proyector
           escenario_cantidades_validas eq_refl).
  vm_compute. discriminate.
Defined.

Example outstanding_after_approval :
  outstanding 1 (loans (snd (approveLoan 10 1 (Some 20) escenario))) = 2.
Proof. reflexivity. Qed.

(** X10. Deleting a loan that is [Aprobado] or [Aplazado] loses its units:
    the items are as they were, the units held by loans drop by the
    quantity of the deleted loan, and every later transition aimed at its id
    fails with [NotFound], so no return can give the units back. *)
Theorem deleteLoan_loses_units (db : DB) (loanId : Id) (loan : Loan.t) :
  loans db !! loanId = Some loan →
  Loan.estado loan = Aprobado ∨ Loan.estado loan = Aplazado →
  let db' := snd (deleteLoan loanId db) in
  items db' = items db ∧
  outstanding (Loan.item loan) (loans db')
    = outstanding (Loan.item loan) (loans db) - Loan.cantidad_prestamo loan ∧
  (∀ a, target a = loanId →
     perform a db' = (Throw err_prestamo_no_encontrado, db')).
Proof.
  intros Hloan He. cbn zeta.
  assert (Hdb : snd (deleteLoan loanId db)
                = mkDB (delete loanId (loans db)) (items db) (users db)).
  { unfold deleteLoan. unfold_db. by rewrite Hloan. }
  rewrite Hdb. cbn. split; [done |]. split.
  - rewrite (outstanding_delete _ _ loan) by done. unfold held.
    rewrite bool_decide_true by done.
    by rewrite (proj2 (en_prestamo_true _) He).
  - intros a <-.
    assert (Hnone : loans (mkDB (delete (target a) (loans db)) (items db)
                             (users db)) !! target a = None)
      by apply lookup_delete_eq.
    destruct a; cbn [perform target] in *.
    + by apply approveLoan_not_found.
    + by apply rejectLoan_not_found.
    + by apply returnLoan_not_found.
    + by apply delayLoan_not_found.
Qed.

Lemma deleteLoan_loses_units_witness :
  loans (snd (approveLoan 10 1 (Some 20) escenario)) !! 1%N
    = Some (approved 10 20 solicitud) ∧
  outstanding 1
    (loans (snd (deleteLoan 1 (snd (approveLoan 10 1 (Some 20) escenario)))))
  = 2 - 2 ∧
  fst (returnLoan 30 1
         (snd (deleteLoan 1 (snd (approveLoan 10 1 (Some 20) escenario)))))
  = Throw err_prestamo_no_encontrado.
Proof.
  split; [reflexivity |].
  destruct (deleteLoan_loses_units
              (snd (approveLoan 10 1 (Some 20) escenario)) 1
              (approved 10 20 solicitud) eq_refl (or_introl eq_refl))
    as (_ & H2 & H3).
  split; [exact H2 |].
  specialize (H3 (DoReturn 30 1) eq_refl). cbn [perform] in H3.
  by rewrite H3.
Defined.

(** ** delayLoan, again *)

(** X11. A loan that is [Aprobado] or [Aplazado] can be deferred any number
    of times and the last date wins: deferring to one date and then to
    another gives the same result and the same database as deferring to the
    second date at once. *)
Theorem delayLoan_last_date_wins (db : DB) (loanId : Id) (loan : Loan.t)
    (fecha1 fecha2 : Fecha) :
  loans db !! loanId = Some loan →
  Loan.estado loan = Aprobado ∨ Loan.estado loan = Aplazado →
  delayLoan loanId (Some fecha2) (snd (delayLoan loanId (Some fecha1) db))
  = delayLoan loanId (Some fecha2) db.
Proof.
  intros Hloan He. apply en_prestamo_true in He.
  rewrite (delayLoan_ok db loanId loan Hloan fecha1 He). cbn [snd].
  erewrite delayLoan_ok; cycle 1.
  - cbn. apply lookup_insert_eq.
  - reflexivity.
  - rewrite (delayLoan_ok db loanId loan Hloan fecha2 He). cbn.
    by rewrite insert_insert_eq.
Qed.

Lemma delayLoan_last_date_wins_witness :
  loans (snd (approveLoan 10 1 (Some 20) escenario)) !! 1%N
    = Some (approved 10 20 solicitud) ∧
  (Loan.fecha_estimada <$>
     loans (snd (delayLoan 1 (Some 40)
                   (snd (delayLoan 1 (Some 30)
                           (snd (approveLoan 10 1 (Some 20) escenario))))))
       !! 1%N) = Some (Some 40).
Proof.
  split; [reflexivity |].
  rewrite (delayLoan_last_date_wins
             (snd (approveLoan 10 1 (Some 20) escenario)) 1
             (approved 10 20 solicitud) 30 40 eq_refl (or_introl eq_refl)).
  reflexivity.
Defined.

(** ** Reading *)

Lemma filter_all {A} (P : A → Prop) `{∀ x, Decision (P x)} (l : list A) :
  (∀ x, P x) → filter P l = l.
Proof.
  intros HP. induction l as [| x l IH]; [done |].
  rewrite filter_cons_True by done. by rewrite IH.
Qed.

(** X12. For a caller whose [rol] is [Admin], [listLoans] returns all the
    stored loans, those in the given state when a state filter is given,
    each once, ordered by [createdAt] descending; without a filter the
    result has as many entries as there are loans. Listing writes
    nothing. *)
Theorem listLoans_admin (caller : Caller.t) (db : DB) :
  Caller.rol caller = "Admin" →
  ∀ filtros_estado, ∃ l,
    listLoans caller filtros_estado db = (Normal l, db) ∧
    (∀ id loan, (id, loan) ∈ l ↔
       loans db !! id = Some loan ∧
       (∀ e, filtros_estado = Some e → Loan.estado loan = e)) ∧
    StronglySorted createdAt_desc l ∧
    NoDup l ∧
    (filtros_estado = None → length l = size (loans db)).
Proof.
  intros Hr filtros_estado. unfold listLoans.
  rewrite bool_decide_true by done. cbn.
  destruct (Loan_find_sorted_spec
              (match filtros_estado with
               | Some e => Query.mk None (Some e)
               | None => Query.mk None None
               end) db) as (l & Hl & Hin & Hs & Hn).
  exists l. split; [exact Hl |]. split; [| split; [done | split; [done |]]].
  - intros id loan. rewrite Hin. unfold Query.matches.
    destruct filtros_estado as [e|]; cbn; rewrite ?bool_decide_eq_true.
    + split; [intros [? ?]; split; [done | congruence] | intros [? He]; eauto].
    + split; [intros [? _]; done | intros [? _]; done].
  - intros ->. unfold Loan_find_sorted in Hl. injection Hl as <-.
    rewrite merge_sort_Permutation, <- length_map_to_list. f_equal.
    apply filter_all. intros p. done.
Qed.

Lemma listLoans_admin_witness :
  Caller.rol (Caller.mk "Admin" 8) = "Admin" ∧
  listLoans (Caller.mk "Admin" 8) None escenario
    = (Normal [(1%N, solicitud)], escenario) ∧
  listLoans (Caller.mk "Admin" 8) (Some Devuelto) escenario
    = (Normal [], escenario).
Proof.
  destruct (listLoans_admin (Caller.mk "Admin" 8) escenario eq_refl None)
    as (l & Hl & _).
  split; [reflexivity |]. split; reflexivity.
Defined.

(** X13. [getLoanById] with an id that is not stored fails with [NotFound]
    for every caller. On a stored loan whose [usuario] refers to a user that
    is not stored, a caller who is not [Admin] gets a [TypeError], which has
    no status, while an [Admin] gets the loan. In every case it writes
    nothing. *)
Theorem getLoanById_edges (caller : Caller.t) (db : DB) (loanId : Id) :
  (loans db !! loanId = None →
   getLoanById caller loanId db = (Throw err_prestamo_no_encontrado, db))
  ∧
  (∀ loan,
     loans db !! loanId = Some loan →
     users db !! Loan.usuario loan = None →
     getLoanById caller loanId db
     = if bool_decide (Caller.rol caller = "Admin")
       then (Normal loan, db) else (Throw TypeError, db))
  ∧
  snd (getLoanById caller loanId db) = db.
Proof.
  split; [| split].
  - intros Hnone. unfold getLoanById. unfold_db. by rewrite Hnone.
  - intros loan Hloan Hu. case_bool_decide.
    + by apply (getLoanById_admin caller db loanId loan).
    + by apply (getLoanById_dangling caller db loanId loan).
  - unfold getLoanById. unfold_db.
    destruct (loans db !! loanId) as [loan|]; [| done].
    destruct (bool_decide (Caller.rol caller = "Admin")); cbn; [done |].
    destruct (users db !! Loan.usuario loan); [| done].
    by destruct (bool_decide (Loan.usuario loan = Caller._id caller)).
Qed.

Lemma getLoanById_edges_witness :
  loans escenario !! 5%N = None ∧
  fst (getLoanById (Caller.mk "Admin" 8) 5 escenario)
    = Throw err_prestamo_no_encontrado ∧
  fst (getLoanById (Caller.mk "Comun" 7) 1
         (mkDB (loans escenario) (items escenario) ∅)) = Throw TypeError.
Proof.
  split; [reflexivity |]. split.
  - by rewrite (proj1 (getLoanById_edges (Caller.mk "Admin" 8) escenario 5)
                  eq_refl).
  - by rewrite (proj1 (proj2 (getLoanById_edges (Caller.mk "Comun" 7)
                                (mkDB (loans escenario) (items escenario) ∅) 1))
                  solicitud eq_refl (lookup_empty _)).
Defined.

(** ** Stock bounds under all four transitions *)

Lemma perform_stock_ok (a : Action) (db : DB) (i : Id) (it : Item.t) :
  cantidades_validas db →
  items db !! i = Some it →
  stock_ok it →
  ∃ it', items (snd (perform a db)) !! i = Some it' ∧ stock_ok it'.
Proof.
  intros Hv Hit Hok.
  destruct (perform_effect a db)
    as [| | loan loan' it0 Hl _ _ _ _ Hit0 Hle
        | loan loan' it0 Hl _ _ _ _ Hit0]; cbn; eauto;
    rewrite lookup_insert; case_decide; eauto; subst i;
    rewrite Hit in Hit0; injection Hit0 as <-;
    (eexists; split; [done |]); specialize (Hv _ _ Hl);
    unfold stock_ok, restored in *; cbn; lia.
Qed.

Lemma perform_all_stock_ok (actions : list Action) (db : DB) (i : Id)
    (it : Item.t) :
  cantidades_validas db →
  items db !! i = Some it →
  stock_ok it →
  ∃ it', items (perform_all actions db) !! i = Some it' ∧ stock_ok it'.
Proof.
  revert db it. unfold perform_all.
  induction actions as [| a actions IH]; intros db it Hv Hit Hok; cbn.
  - eauto.
  - destruct (perform_stock_ok a db i it Hv Hit Hok) as (it1 & H1 & Hok1).
    eapply IH; eauto using perform_cantidades_validas.
Qed.

(** X18. The bounds of the stock counter hold under all four transitions:
    when the quantities of the stored loans are positive, an item with
    [0 <= cantidad_disponible <= cantidad_total_stock] still has it after
    any sequence of approvals, rejections, returns and deferrals. *)
Theorem stock_ok_all_transitions (actions : list Action) (db : DB) (i : Id)
    (it : Item.t) :
  cantidades_validas db →
  items db !! i = Some it →
  stock_ok it →
  ∃ it', items (perform_all actions db) !! i = Some it' ∧ stock_ok it'.
Proof. apply perform_all_stock_ok. Qed.

Lemma stock_ok_all_transitions_witness :
  cantidades_validas escenario ∧
  items escenario !! 1%N = Some proyector ∧
  stock_ok proyector ∧
  ∃ it',
    items (perform_all [DoApprove 10 1 (Some 20); DoDelay 1 (Some 25);
                        DoReject 1; DoReturn 30 1; DoReturn 31 1]
             escenario) !! 1%N = Some it'
    ∧ stock_ok it'.
Proof.
  assert (Hok : stock_ok proyector) by (unfold stock_ok; cbn; lia).
  split; [exact escenario_cantidades_validas |].
  split; [reflexivity |]. split; [exact Hok |].
  exact (stock_ok_all_transitions _ escenario 1%N proyector
           escenario_cantidades_validas eq_refl Hok).
Defined.

(** X19. No more units are out than the item has. When the quantities of
    the stored loans are positive, the available units of an item are not
    negative and, with the units its [Aprobado] and [Aplazado] loans hold,
    do not exceed its total stock, then after any sequence of transitions
    the units those loans hold do not exceed the total stock. *)
Theorem never_overlent (actions : list Action) (db : DB) (i : Id)
    (it : Item.t) :
  cantidades_validas db →
  items db !! i = Some it →
  0 ≤ Item.cantidad_disponible it →
  Item.cantidad_disponible it + outstanding i (loans db)
    ≤ Item.cantidad_total_stock it →
  outstanding i (loans (perform_all actions db))
    ≤ Item.cantidad_total_stock it.
Proof.
  intros Hv Hit Hpos Hsum.
  assert (Hok : stock_ok it).
  { assert (0 ≤ outstanding i (loans db)); [| unfold stock_ok; lia].
    apply outstanding_nonneg. intros k l Hk. specialize (Hv k l Hk). lia. }
  destruct (perform_all_stock_ok actions db i it Hv Hit Hok)
    as (it1 & Hit1 & Hok1).
  destruct (perform_all_conserves actions db i it Hv Hit Hsum)
    as (it' & Hit' & Hs).
  rewrite Hit1 in Hit'. injection Hit' as <-.
  unfold stock_ok in Hok1. lia.
Qed.

Lemma never_overlent_witness :
  cantidades_validas escenario ∧
  items escenario !! 1%N = Some proyector ∧
  outstanding 1 (loans (perform_all [DoApprove 10 1 (Some 20);
                                     DoDelay 1 (Some 25)] escenario)) ≤ 5.
Proof.
  split; [exact escenario_cantidades_validas |]. split; [reflexivity |].
  apply (never_overlent _ escenario 1%N proyector
           escenario_cantidades_validas eq_refl).
  - vm_compute. discriminate.
  - vm_compute. discriminate.
Defined.

(** ** Missing date, missing item *)

(** X20. [approveLoan] without a date on a stored [Pendiente] loan fails
    with [ValidationError] and writes nothing, whatever the item and its
    stock: the date is tested before the item is read. *)
Theorem approveLoan_requires_date (db : DB) (now : Fecha) (loanId : Id)
    (loan : Loan.t) :
  loans db !! loanId = Some loan →
  Loan.estado loan = Pendiente →
  fails_with ValidationError (fst (approveLoan now loanId None db)) ∧
  snd (approveLoan now loanId None db) = db.
Proof.
  intros Hloan He. erewrite approveLoan_no_date by eauto.
  split; [by eexists | done].
Qed.

Lemma approveLoan_requires_date_witness :
  loans escenario !! 1%N = Some solicitud ∧
  fails_with ValidationError (fst (approveLoan 10 1 None escenario)).
Proof.
  split; [reflexivity |].
  exact (proj1 (approveLoan_requires_date escenario 10 1 solicitud
                  eq_refl eq_refl)).
Defined.

(** X21. When the item of a stored loan is not stored, [approveLoan] (on a
    [Pendiente] loan, with a date) and [returnLoan] (on an [Aprobado] or
    [Aplazado] loan) fail with [NotFound] and write nothing: the loan keeps
    its state. *)
Theorem missing_item_not_found (db : DB) (loanId : Id) (loan : Loan.t) :
  loans db !! loanId = Some loan →
  items db !! Loan.item loan = None →
  (∀ now fecha,
     Loan.estado loan = Pendiente →
     fails_with NotFound (fst (approveLoan now loanId (Some fecha) db)) ∧
     snd (approveLoan now loanId (Some fecha) db) = db)
  ∧
  (∀ now,
     Loan.estado loan = Aprobado ∨ Loan.estado loan = Aplazado →
     fails_with NotFound (fst (returnLoan now loanId db)) ∧
     snd (returnLoan now loanId db) = db).
Proof.
  intros Hloan Hitem. split.
  - intros now fecha He. erewrite approveLoan_no_item by eauto.
    split; [by eexists | done].
  - intros now He%en_prestamo_true. erewrite returnLoan_no_item by eauto.
    split; [by eexists | done].
Qed.

Lemma missing_item_not_found_witness :
  loans (mkDB (loans escenario) ∅ (users escenario)) !! 1%N = Some solicitud ∧
  fails_with NotFound
    (fst (approveLoan 10 1 (Some 20)
            (mkDB (loans escenario) ∅ (users escenario)))).
Proof.
  split; [reflexivity |].
  exact (proj1 (proj1 (missing_item_not_found
                         (mkDB (loans escenario) ∅ (users escenario)) 1
                         solicitud eq_refl (lookup_empty _))
                  10 20 eq_refl)).
Defined.

(** * Further properties of the mail service *)

Lemma elem_of_attempts_trace (req : Request.t) (n : nat) (ev : Event) :
  ev ∈ attempts_trace req n → ev = Send req ∨ ev = Sleep 2000.
Proof.
  induction n as [| [| n] IH]; cbn.
  - by intros ?%elem_of_nil.
  - intros ?%list_elem_of_singleton. auto.
  - intros [-> | [-> | H]%elem_of_cons]%elem_of_cons; auto.
Qed.

Lemma waited_attempts_trace (req : Request.t) (n : nat) :
  waited (attempts_trace req (S n)) = 2000 * Z.of_nat n.
Proof.
  induction n as [| n IH]; [done |].
  change (attempts_trace req (S (S n)))
    with (Send req :: Sleep 2000 :: attempts_trace req (S n)).
  cbn [waited foldr]. fold (waited (attempts_trace req (S n))).
  rewrite IH. lia.
Qed.

Section SendEmailMore.
Context (toLowerCase : string → string)
        (JSON_stringify : ApiError.t → string)
        (env : Env.t).

#[local] Abbreviation send_email := (sendEmail toLowerCase JSON_stringify env).
#[local] Abbreviation try_send := (try_send toLowerCase JSON_stringify env).

(** The trace of a call: nothing, or some attempts for the one request. *)
Lemma sendEmail_trace (resend : Service) (msg : Message.t) (retries : nat) :
  snd (send_email resend msg retries) = [] ∨
  ∃ m, (m ≤ retries)%nat ∧
       email_invalido (Message.to msg) = false ∧
       snd (send_email resend msg retries)
       = attempts_trace (request toLowerCase env (String_of (Message.to msg)) msg) (S m).
Proof.
  destruct (email_invalido (Message.to msg)
            || negb (truthy (Env.RESEND_API_KEY env))) eqn:Hrefused.
  - left.
    destruct (sendEmail_refused toLowerCase JSON_stringify env resend msg
                retries Hrefused) as (v & Hs & _).
    by rewrite Hs.
  - right. apply orb_false_iff in Hrefused as [Hv Hk].
    apply negb_false_iff in Hk.
    destruct (sendEmail_made toLowerCase JSON_stringify env retries resend msg
                Hv Hk) as (v & m & Hs & Hle & _).
    exists m. by rewrite Hs.
Qed.

Lemma sendEmail_sends_le (resend : Service) (msg : Message.t) (retries : nat) :
  (sends (snd (send_email resend msg retries)) ≤ S retries)%nat.
Proof.
  destruct (sendEmail_trace resend msg retries) as [-> | (m & Hle & _ & ->)].
  - cbn. lia.
  - rewrite sends_attempts_trace. lia.
Qed.

(** X14. With any number of retries, [sendEmail] sends at most one request
    more than it has retries, waits 2000 ms before each request but the
    first, and so never waits longer than 2000 ms times the retries; with no
    retries it sends at most once and does not wait. *)
Theorem sendEmail_backoff_bound (resend : Service) (msg : Message.t)
    (retries : nat) :
  let tr := snd (send_email resend msg retries) in
  (sends tr ≤ S retries)%nat ∧
  waited tr = 2000 * Z.of_nat (Nat.pred (sends tr)) ∧
  waited tr ≤ 2000 * Z.of_nat retries.
Proof.
  cbn zeta.
  destruct (sendEmail_trace resend msg retries) as [-> | (m & Hle & _ & ->)].
  - cbn. lia.
  - rewrite sends_attempts_trace, waited_attempts_trace. cbn. lia.
Qed.

(** X15. Every request [sendEmail] sends has exactly one recipient, and the
    address it was called with contains an [@]. In production the recipient
    is that address, the subject is the given one and the sender is
    [RESEND_FROM_EMAIL] when it is set. Outside production the recipient is
    the given address when it is the verified owner's up to case, and the
    sandbox address [delivered@resend.dev] otherwise; the subject names the
    intended address. Whenever [RESEND_FROM_EMAIL] does not apply the sender
    is the Resend onboarding address. *)
Theorem sendEmail_recipient (resend : Service) (msg : Message.t)
    (retries : nat) (req : Request.t) :
  Send req ∈ snd (send_email resend msg retries) →
  ∃ to,
    Message.to msg = Some to ∧
    includes "@" to = true ∧
    (isProduction env = true →
     Request.to req = [to] ∧
     Request.subject req = Message.subject msg ∧
     Request.from req
     = if truthy (Env.RESEND_FROM_EMAIL env)
       then String_of (Env.RESEND_FROM_EMAIL env)
       else "Inventario <onboarding@resend.dev>") ∧
    (isProduction env = false →
     (toLowerCase to = toLowerCase (VERIFIED_OWNER_EMAIL env) →
      Request.to req = [to]) ∧
     (toLowerCase to ≠ toLowerCase (VERIFIED_OWNER_EMAIL env) →
      Request.to req = ["delivered@resend.dev"]) ∧
     Request.from req = "Inventario <onboarding@resend.dev>" ∧
     Request.subject req
     = "[TEST → " +:+ to +:+ "] " +:+ Message.subject msg).
Proof.
  intros Hin.
  destruct (sendEmail_trace resend msg retries) as [Hnil | (m & _ & Hv & Htr)].
  - rewrite Hnil in Hin. by apply elem_of_nil in Hin.
  - rewrite Htr in Hin.
    apply elem_of_attempts_trace in Hin as [[= ->] | [=]].
    unfold email_invalido in Hv. apply orb_false_iff in Hv as [Ht Ha].
    apply negb_false_iff in Ht, Ha.
    destruct (Message.to msg) as [to|]; [| done].
    exists to. cbn [String_of] in *. split; [done |]. split; [done |].
    unfold request, getRecipient, getSubject. cbn. split.
    + intros ->. done.
    + intros ->. cbn. split; [| split; [| done]].
      * intros Heq. by rewrite bool_decide_true.
      * intros Hne. by rewrite bool_decide_false.
Qed.
End SendEmailMore.

Lemma sendEmail_recipient_witness :
  Send (request id entorno "dafecano@gmail.com" aviso_owner)
    ∈ snd (sendEmail id (λ _, "{}") entorno acepta aviso_owner 2) ∧
  Request.to (request id entorno "dafecano@gmail.com" aviso_owner)
  = ["dafecano@gmail.com"] ∧
  Send (request id entorno "ana@example.org" aviso)
    ∈ snd (sendEmail id (λ _, "{}") entorno acepta aviso 2) ∧
  Request.to (request id entorno "ana@example.org" aviso)
  = ["delivered@resend.dev"].
Proof.
  assert (Hown : Send (request id entorno "dafecano@gmail.com" aviso_owner)
                 ∈ snd (sendEmail id (λ _, "{}") entorno acepta aviso_owner 2)).
  { assert (Htr : snd (sendEmail id (λ _, "{}") entorno acepta aviso_owner 2)
                  = [Send (request id entorno "dafecano@gmail.com" aviso_owner)])
      by reflexivity.
    rewrite Htr. left. }
  assert (Hana : Send (request id entorno "ana@example.org" aviso)
                 ∈ snd (sendEmail id (λ _, "{}") entorno acepta aviso 2)).
  { assert (Htr : snd (sendEmail id (λ _, "{}") entorno acepta aviso 2)
                  = [Send (request id entorno "ana@example.org" aviso)])
      by reflexivity.
    rewrite Htr. left. }
  split; [exact Hown |]. split.
  - destruct (sendEmail_recipient id (λ _, "{}") entorno acepta aviso_owner 2
                _ Hown) as (to & Hto & _ & _ & Hdev).
    injection Hto as <-. exact (proj1 (Hdev eq_refl) eq_refl).
  - split; [exact Hana |].
    destruct (sendEmail_recipient id (λ _, "{}") entorno acepta aviso 2
                _ Hana) as (to & Hto & _ & _ & Hdev).
    injection Hto as <-.
    exact (proj1 (proj2 (Hdev eq_refl)) ltac:(discriminate)).
Defined.

Section SendResultShape.
Context (toLowerCase : string → string)
        (JSON_stringify : ApiError.t → string)
        (env : Env.t).

Lemma try_send_fulfilled (resend : Service) (msg : Message.t)
    (v : SendResult.t) (tr : list Event) :
  try_send toLowerCase JSON_stringify env resend msg = (Fulfilled v, tr) →
  SendResult.success v = true ∧ SendResult.error v = None.
Proof.
  unfold try_send.
  destruct (email_invalido (Message.to msg)); [done |].
  destruct (negb (truthy (Env.RESEND_API_KEY env))); [done |].
  destruct (resend _ 0%nat) as [[[id|] [err|]] | e]; try done.
  by intros [= <- _].
Qed.

(** X16. The object [sendEmail] resolves to is of one of two shapes, for any
    number of retries: with [success] true it has no [error]; with [success]
    false it has an [error] text and no [messageId]. *)
Theorem sendEmail_result_shape (retries : nat) (resend : Service)
    (msg : Message.t) :
  ∃ v,
    fst (sendEmail toLowerCase JSON_stringify env resend msg retries)
      = Fulfilled v ∧
    if SendResult.success v
    then SendResult.error v = None
    else SendResult.messageId v = None ∧ is_Some (SendResult.error v).
Proof.
  revert resend. induction retries as [| retries IH]; intros resend;
    cbn [sendEmail];
    destruct (try_send toLowerCase JSON_stringify env resend msg)
      as [[v | e] tr] eqn:Ht.
  - exists v. destruct (try_send_fulfilled _ _ _ _ Ht) as [-> ->]. done.
  - eexists. split; [done |]. cbn. eauto.
  - exists v. destruct (try_send_fulfilled _ _ _ _ Ht) as [-> ->]. done.
  - destruct (retryable e).
    + destruct (IH (λ req n, resend req (S n))) as (v & Hv & Hshape).
      destruct (sendEmail _ _ _ _ _ retries) as [r tr'].
      cbn in Hv. subst r. by exists v.
    + eexists. split; [done |]. cbn. eauto.
Qed.
End SendResultShape.

Section NotifyCounts.
Context (toLowerCase : string → string)
        (JSON_stringify : ApiError.t → string)
        (env : Env.t).

#[local] Abbreviation notify :=
  (notifyAdminsNewLoan toLowerCase JSON_stringify env).

(** X17. With at least one valid administrator, [notifyAdminsNewLoan] calls
    [sendEmail] once for each of them and reports how the calls went:
    [successful] is the number of calls that resolved with [success] true,
    [successful] and [failed] add up to the number of valid administrators,
    [success] is true exactly when [successful] is positive, and no call
    sends more than 3 requests. Without any administrator it reports
    [No admins found] and makes no call. *)
Theorem notifyAdmins_counts (resend : nat → Service) (html : string)
    (db : DB) :
  (validAdmins (User_find_admins db) ≠ [] →
   ∃ s f,
     fst (notify resend html db)
     = NotifyResult.mk (bool_decide (0 < s)%nat) None (Some s) (Some f) ∧
     s = length
           (filter (λ r, exitoso r = true)
              (imap (λ i admin,
                       fst (sendEmail_default toLowerCase JSON_stringify env
                              (resend i) (aviso_admin html admin)))
                    (validAdmins (User_find_admins db)))) ∧
     (s + f = length (validAdmins (User_find_admins db)))%nat ∧
     length (snd (notify resend html db))
     = length (validAdmins (User_find_admins db)) ∧
     (∀ c, c ∈ snd (notify resend html db) → (sends (snd c) ≤ 3)%nat))
  ∧
  (User_find_admins db = [] →
   notify resend html db
   = (NotifyResult.mk false (Some "No admins found") None None, [])).
Proof.
  split.
  - intros Hvalid. unfold notifyAdminsNewLoan.
    assert (Hadmins : length (User_find_admins db) ≠ 0%nat).
    { intros H%nil_length_inv. apply Hvalid. by rewrite H. }
    assert (Hlen : length (validAdmins (User_find_admins db)) ≠ 0%nat)
      by (by intros H%nil_length_inv).
    rewrite bool_decide_false by done. rewrite bool_decide_false by done.
    cbn [fst snd].
    set (calls := imap _ (validAdmins (User_find_admins db))).
    assert (Hresults :
              (λ c : option string * (Settled SendResult.t * list Event),
                 fst (snd c)) <$> calls
              = imap (λ i admin,
                        fst (sendEmail_default toLowerCase JSON_stringify env
                               (resend i) (aviso_admin html admin)))
                     (validAdmins (User_find_admins db))).
    { subst calls. rewrite fmap_imap. by apply imap_ext. }
    rewrite Hresults.
    eexists _, _. split; [reflexivity |]. split; [reflexivity |].
    pose proof (length_filter (λ r, exitoso r = true)
                  (imap (λ i admin,
                           fst (sendEmail_default toLowerCase JSON_stringify
                                  env (resend i) (aviso_admin html admin)))
                        (validAdmins (User_find_admins db)))) as Hle.
    rewrite length_imap in Hle |- *.
    split; [lia |]. split.
    + subst calls. by rewrite length_fmap, length_imap.
    + intros c (c0 & -> & Hc0)%list_elem_of_fmap.
      subst calls. apply elem_of_lookup_imap in Hc0 as (i & admin & -> & _).
      cbn [fst snd]. unfold sendEmail_default. apply sendEmail_sends_le.
  - intros Hnil. unfold notifyAdminsNewLoan. by rewrite Hnil.
Qed.
End NotifyCounts.

Lemma notifyAdmins_counts_witness :
  validAdmins (User_find_admins escenario) ≠ [] ∧
  notifyAdminsNewLoan id (λ _, "{}") entorno (λ _, acepta) "<p>nuevo</p>"
    escenario
  = (NotifyResult.mk true None (Some 1%nat) (Some 0%nat),
     [(Some "luis@example.org",
       [Send (request id entorno "luis@example.org"
                (Message.mk (Some "luis@example.org") subject_nuevo_prestamo
                   None (Some "<p>nuevo</p>")))])]).
Proof.
  assert (Hv : validAdmins (User_find_admins escenario) ≠ [])
    by (vm_compute; discriminate).
  destruct (proj1 (notifyAdmins_counts id (λ _, "{}") entorno (λ _, acepta)
                     "<p>nuevo</p>" escenario) Hv) as (s & f & _).
  split; [exact Hv |]. vm_compute. reflexivity.
Defined.
